(** * url-utilities: redirect-chain resolution

    A shallow embedding of the two module files of the package,
    [src/index.ts] (module [TS] below) and [index.js] (module [JS] below),
    and the properties of [getLocationHeader] and [getRedirectChain].

    The host environment (the [URL] class, [fetch], the clock behind
    [setTimeout]) is not part of the package.  It is a parameter of the
    development, the record [Host]; a small executable instance, built in
    module [Whatwg], runs the module on concrete scenarios. *)

From Stdlib Require Import ZArith QArith Qround String Ascii List Bool Lia.
From stdpp Require Import base gmap strings.
Import ListNotations.

Local Open Scope string_scope.
Local Open Scope list_scope.
Local Open Scope Z_scope.

(** ** Data model *)

(** The request methods the module uses ([method: "HEAD"], [method: "GET"]). *)
Inductive Method : Type := HEAD | GET.

(** What the module reads of a [Response]: [response.status] (through
    [response.ok]) and [response.headers.get("Location")], which is [null]
    ([None]) when the header is absent. *)
Record Response : Type := mkResponse {
  status : Z;
  location : option string
}.

(** [response.ok]: the status is in the range 200-299. *)
Definition ok (r : Response) : bool :=
  (200 <=? status r) && (status r <=? 299).

(** A settled [fetch] promise: fulfilled with a response, or rejected
    (network error, or [AbortError] once the 3000 ms timer has fired). *)
Inductive FetchResult : Type :=
| Responds (r : Response)
| Rejects.

(** The host environment.  [URL_new input None] is [new URL(input)] and
    [URL_new input (Some base)] is [new URL(input, base)]; [None] as a result
    is the [TypeError] the constructor throws.  [World] is everything outside
    the module: the servers, and the exported, mutable set
    [noHeadRequestDomains] as it currently stands.  Every [await] hands control
    to the world, so [fetch] returns the world it leaves behind. *)
Record Host : Type := mkHost {
  URL : Type;
  hostname : URL -> string;
  URL_new : string -> option URL -> option URL;
  World : Type;
  noHeadRequestDomains : World -> gset string;
  fetch : Method -> URL -> World -> FetchResult * World
}.

(** The initial contents of [noHeadRequestDomains]. *)
Definition noHeadRequestDomains_seed : gset string :=
  {[ "mega.co.nz"; "mega.io"; "mega.nz" ]}.

(** How a call completes: with a value, or by throwing. *)
Inductive Completion (A : Type) : Type :=
| Normal (a : A)
| Throws.
Arguments Normal {A} a.
Arguments Throws {A}.

(** A JavaScript [number] restricted to its finite values, which are all
    rationals; [a < b] on numbers. *)
Definition number_lt (a b : Q) : bool := negb (Qle_bool b a).

(** [maxChainLength = 20]: the value of the parameter when a call omits it. *)
Definition defaultMaxChainLength : Q := 20.

Section Runtime.

Context (H : Host).

(** The two messages [index.js] writes with [console.error]. *)
Inductive ConsoleError : Type :=
| HeadRequestFailed (domain : string)
| ChainRequestError (url : URL H).

(** The state threaded through a call: the world, the requests issued so
    far (oldest first) and the console output so far. *)
Record State : Type := mkState {
  world : World H;
  requests : list (Method * URL H);
  console : list ConsoleError
}.

(** An [async] function body: state in, completion and state out. *)
Definition Async (A : Type) : Type := State -> Completion A * State.

Definition ret {A} (a : A) : Async A := fun st => (Normal a, st).

Definition bind {A B} (c : Async A) (k : A -> Async B) : Async B :=
  fun st =>
    match c st with
    | (Normal a, st') => k a st'
    | (Throws, st') => (Throws, st')
    end.

(** [try { body } catch (error) { handler }] *)
Definition try_catch {A} (body handler : Async A) : Async A :=
  fun st =>
    match body st with
    | (Normal a, st') => (Normal a, st')
    | (Throws, st') => handler st'
    end.

(** [await fetch(url, { method, redirect: "manual", ... })] *)
Definition await_fetch (method : Method) (url : URL H) : Async Response :=
  fun st =>
    let (result, w) := fetch H method url (world st) in
    let st' := mkState w (requests st ++ [(method, url)]) (console st) in
    match result with
    | Responds r => (Normal r, st')
    | Rejects => (Throws, st')
    end.

(** [noHeadRequestDomains.has(hostname)] *)
Definition noHeadRequestDomains_has (name : string) : Async bool :=
  fun st => (Normal (bool_decide (name ∈ noHeadRequestDomains H (world st))), st).

(** [console.error(...)] *)
Definition console_error (msg : ConsoleError) : Async unit :=
  fun st => (Normal tt, mkState (world st) (requests st) (console st ++ [msg])).

(** The loop of [getRedirectChain], which reads the same in both files but
    for the probe it calls and what its [catch] block does before
    [return null].  The result is [Some chain] for the array and [None] for
    [null]; the outer [option] is [None] only when [fuel] runs out before
    the loop ends. *)
Fixpoint walk (getLocationHeader : URL H -> Async (option string))
    (on_error : URL H -> Async unit)
    (fuel : nat) (maxChainLength : Q) (chain : list (URL H)) (url : URL H)
    (st : State) : option (option (list (URL H)) * State) :=
  if number_lt (inject_Z (Z.of_nat (length chain))) maxChainLength then
    match fuel with
    | O => None
    | S fuel' =>
        let chain := chain ++ [url] in
        match getLocationHeader url st with
        | (Normal (Some locationHeader), st1) =>
            match (if String.prefix "/" locationHeader
                   then URL_new H locationHeader (Some url)
                   else URL_new H locationHeader None) with
            | Some next =>
                walk getLocationHeader on_error fuel' maxChainLength chain next st1
            | None => Some (None, snd (on_error url st1))
            end
        | (Normal None, st1) => Some (Some chain, st1)
        | (Throws, st1) => Some (None, snd (on_error url st1))
        end
    end
  else Some (Some chain, st).

(** [isValidURL]: whether [new URL(url)] succeeds. *)
Definition isValidURL (url : string) : bool :=
  match URL_new H url None with
  | Some _ => true
  | None => false
  end.

(** Iterations that suffice for the loop: each one adds an element to the
    chain, and the loop stops once the length reaches [maxChainLength]. *)
Definition iterations (maxChainLength : Q) : nat :=
  Z.to_nat (Qceiling maxChainLength).

End Runtime.

Arguments ret {H A} a.
Arguments bind {H A B} c k.
Arguments try_catch {H A} body handler.
Arguments await_fetch {H} method url.
Arguments noHeadRequestDomains_has {H} name.
Arguments console_error {H} msg.
Arguments walk {H} getLocationHeader on_error fuel maxChainLength chain url st.
Arguments mkState {H} world requests console.
Arguments world {H} s.
Arguments requests {H} s.
Arguments console {H} s.
Arguments HeadRequestFailed {H} domain.
Arguments ChainRequestError {H} url.

Notation "'await' x <- c ;; k" := (bind c (fun x => k))
  (at level 10, x name, c at level 99, k at level 200).
Notation "'await' '_' <- c ;; k" := (bind c (fun _ => k))
  (at level 10, c at level 99, k at level 200).

(** ** [src/index.ts] *)
Module TS.
Section TS.

Context {H : Host}.

Definition getLocationHeader (url : URL H) : Async H (option string) :=
  await inDomains <- noHeadRequestDomains_has (hostname H url) ;;
  let tryHeadRequest := negb inDomains in
  await response <-
    (if tryHeadRequest
     then try_catch (await r <- await_fetch HEAD url ;; ret (Some r)) (ret None)
     else ret None) ;;
  await response <-
    match response with
    | Some r => ret (Some r)
    | None => try_catch (await r <- await_fetch GET url ;; ret (Some r)) (ret None)
    end ;;
  match response with
  | None => ret None                     (* the [return null] of the catch *)
  | Some response =>
      if negb (ok response) then ret None
      else ret (location response)
  end.

Definition getRedirectChain (url : URL H) (maxChainLength : Q) (st : State H)
  : option (option (list (URL H)) * State H) :=
  walk getLocationHeader (fun _ => ret tt)
       (iterations maxChainLength) maxChainLength [] url st.

End TS.
End TS.

(** ** [index.js] *)
Module JS.
Section JS.

Context {H : Host}.

Definition getLocationHeader (url : URL H) : Async H (option string) :=
  await inDomains <- noHeadRequestDomains_has (hostname H url) ;;
  let tryHeadRequest := negb inDomains in
  await response <-
    (if tryHeadRequest
     then try_catch (await r <- await_fetch HEAD url ;; ret (Some r))
                    (await _ <- console_error (HeadRequestFailed (hostname H url)) ;;
                     ret None)
     else ret None) ;;
  await response <-
    match response with
    | Some r => ret r
    | None => await_fetch GET url
    end ;;
  ret (location response).

Definition getRedirectChain (url : URL H) (maxChainLength : Q) (st : State H)
  : option (option (list (URL H)) * State H) :=
  walk getLocationHeader (fun url => console_error (ChainRequestError url))
       (iterations maxChainLength) maxChainLength [] url st.

End JS.
End JS.

(** ** An executable host for concrete scenarios *)

(** A fragment of the host's URL parser, used only to run the module on
    concrete inputs.  It covers [http:] and [https:] URLs of the shape
    [scheme://host/path] whose host is made of dot-separated lower-case
    labels and whose path is made of letters, digits, [/], [-] and [_]: on
    these the URL standard performs no normalisation, so the parsed URL
    carries the text as written.  With a base it covers in addition the
    scheme-relative reference [//host/path] and the path-absolute reference
    [/path].  Every other input is answered [None], also where the real
    constructor succeeds (ports, upper case, queries, dot segments,
    backslashes): the fragment stands for the constructor only on the inputs
    it covers, and only the runs on such inputs below use it. *)
Module Whatwg.

Record url : Type := mkUrl {
  protocol : string;
  host : string;
  pathname : string
}.

Definition href (u : url) : string :=
  (protocol u ++ "//" ++ host u ++ pathname u)%string.

Definition code_in (lo hi : nat) (c : ascii) : bool :=
  (Nat.leb lo (nat_of_ascii c)) && (Nat.leb (nat_of_ascii c) hi).

Definition is_lower : ascii -> bool := code_in 97 122.
Definition is_upper : ascii -> bool := code_in 65 90.
Definition is_digit : ascii -> bool := code_in 48 57.

Definition host_char (c : ascii) : bool :=
  is_lower c || Ascii.eqb c ".".

Definition path_char (c : ascii) : bool :=
  is_lower c || is_upper c || is_digit c
  || Ascii.eqb c "/" || Ascii.eqb c "-" || Ascii.eqb c "_".

Fixpoint all_chars (f : ascii -> bool) (s : string) : bool :=
  match s with
  | EmptyString => true
  | String c s' => f c && all_chars f s'
  end.

Fixpoint span (f : ascii -> bool) (s : string) : string * string :=
  match s with
  | EmptyString => (EmptyString, EmptyString)
  | String c s' =>
      if f c then let (a, b) := span f s' in (String c a, b)
      else (EmptyString, s)
  end.

Fixpoint strip_prefix (p s : string) : option string :=
  match p, s with
  | EmptyString, _ => Some s
  | String a p', String b s' => if Ascii.eqb a b then strip_prefix p' s' else None
  | String _ _, EmptyString => None
  end.

(** Every label of the host is non-empty. *)
Fixpoint labels_ok (after_dot : bool) (s : string) : bool :=
  match s with
  | EmptyString => negb after_dot
  | String c s' =>
      if Ascii.eqb c "." then negb after_dot && labels_ok true s'
      else is_lower c && labels_ok false s'
  end.

Definition parse_host_path (s : string) : option (string * string) :=
  let (h, rest) := span host_char s in
  if labels_ok true h then
    match rest with
    | EmptyString => Some (h, "/")
    | String c _ =>
        if Ascii.eqb c "/" && all_chars path_char rest then Some (h, rest)
        else None
    end
  else None.

Definition parse_absolute (input : string) : option url :=
  match strip_prefix "https://" input with
  | Some rest =>
      match parse_host_path rest with
      | Some (h, p) => Some (mkUrl "https:" h p)
      | None => None
      end
  | None =>
      match strip_prefix "http://" input with
      | Some rest =>
          match parse_host_path rest with
          | Some (h, p) => Some (mkUrl "http:" h p)
          | None => None
          end
      | None => None
      end
  end.

Definition URL_new (input : string) (base : option url) : option url :=
  match base with
  | None => parse_absolute input
  | Some b =>
      match strip_prefix "//" input with
      | Some rest =>
          match parse_host_path rest with
          | Some (h, p) => Some (mkUrl (protocol b) h p)
          | None => None
          end
      | None =>
          if String.prefix "/" input then
            if all_chars path_char input
            then Some (mkUrl (protocol b) (host b) input)
            else None
          else parse_absolute input
      end
  end.

(** A world of servers that answer by the URL and the method alone; the
    world's state is the set [noHeadRequestDomains]. *)
Definition static (site : Method -> url -> FetchResult) : Host :=
  mkHost url host URL_new (gset string) (fun w => w)
         (fun method u w => (site method u, w)).

Definition start (site : Method -> url -> FetchResult) : State (static site) :=
  mkState (H := static site) noHeadRequestDomains_seed [] [].

(** The servers tell URLs apart by their serialisation. *)
Definition at_url (u : url) (s : string) : bool := String.eqb (href u) s.

End Whatwg.

(** ** What a probe obtains *)

Section Probe.

Context {H : Host}.

(** [Obtains url st r]: the requests of one probe of [url], started in state
    [st], end with the response [r]: the HEAD request answered; or the host
    name is in [noHeadRequestDomains] and the GET request answered; or the
    HEAD request was rejected and the GET request that follows answered. *)
Inductive Obtains (url : URL H) (st : State H) (r : Response) : Prop :=
| obtains_head :
    hostname H url ∉ noHeadRequestDomains H (world st) ->
    fst (fetch H HEAD url (world st)) = Responds r ->
    Obtains url st r
| obtains_get :
    hostname H url ∈ noHeadRequestDomains H (world st) ->
    fst (fetch H GET url (world st)) = Responds r ->
    Obtains url st r
| obtains_get_after_head :
    hostname H url ∉ noHeadRequestDomains H (world st) ->
    fst (fetch H HEAD url (world st)) = Rejects ->
    fst (fetch H GET url (snd (fetch H HEAD url (world st)))) = Responds r ->
    Obtains url st r.

(** [NoResponse url st]: neither request of the probe is answered. *)
Definition NoResponse (url : URL H) (st : State H) : Prop :=
  ((hostname H url ∈ noHeadRequestDomains H (world st)) /\
   fst (fetch H GET url (world st)) = Rejects)
  \/
  ((hostname H url ∉ noHeadRequestDomains H (world st)) /\
   fst (fetch H HEAD url (world st)) = Rejects /\
   fst (fetch H GET url (snd (fetch H HEAD url (world st)))) = Rejects).

(** The value of the array-or-null a call returned, without the state. *)
Definition returned (r : option (option (list (URL H)) * State H))
  : option (option (list (URL H))) :=
  option_map fst r.

(** The URL the loop moves to for a [Location] value. *)
Definition resolved (locationHeader : string) (url : URL H) : option (URL H) :=
  if String.prefix "/" locationHeader
  then URL_new H locationHeader (Some url)
  else URL_new H locationHeader None.

(** One round of the loop that moves on to a next URL: the guard holds, the
    probe returns a [Location] value, and the value parses.  A configuration
    is the chain before the round's [push], the current URL and the state. *)
Inductive Round (getLocationHeader : URL H -> Async H (option string))
    (maxChainLength : Q)
  : list (URL H) * URL H * State H -> list (URL H) * URL H * State H -> Prop :=
| round_next chain url st locationHeader st1 next :
    number_lt (inject_Z (Z.of_nat (length chain))) maxChainLength = true ->
    getLocationHeader url st = (Normal (Some locationHeader), st1) ->
    resolved locationHeader url = Some next ->
    Round getLocationHeader maxChainLength
          (chain, url, st) (chain ++ [url], next, st1).

(** What a caller can compare between two runs, the console output aside:
    the value returned, the world left behind and the requests issued. *)
Definition observable (r : option (option (list (URL H)) * State H))
  : option (option (list (URL H)) * World H * list (Method * URL H)) :=
  option_map (fun p => (fst p, world (snd p), requests (snd p))) r.

End Probe.

(** ** Scenarios *)

Module Scenario.
Import Whatwg.

Definition example_root : url := mkUrl "https:" "example.com" "/".
Definition example_ab : url := mkUrl "https:" "example.com" "/a/b".
Definition example_c : url := mkUrl "https:" "example.com" "/c".
Definition other_x : url := mkUrl "https:" "other.example" "/x".
Definition mega_file : url := mkUrl "https:" "mega.nz" "/file".

(** Every request is answered with the same response. *)
Definition always (r : Response) : Method -> url -> FetchResult :=
  fun _ _ => Responds r.

(** 200 and no [Location] header. *)
Definition plain : Method -> url -> FetchResult :=
  always (mkResponse 200 None).

(** 404 and no [Location] header. *)
Definition not_found : Method -> url -> FetchResult :=
  always (mkResponse 404 None).

(** No request is ever answered: every [fetch] promise is rejected. *)
Definition unreachable : Method -> url -> FetchResult :=
  fun _ _ => Rejects.

(** Every URL redirects to itself: 301 with its own address as [Location]. *)
Definition self_redirect : Method -> url -> FetchResult :=
  fun _ u => Responds (mkResponse 301 (Some (href u))).

(** [https://example.com/a/b] answers with the given status and [Location]
    header; every other URL answers 200 without a [Location] header. *)
Definition redirecting (code : Z) (locationHeader : string)
  : Method -> url -> FetchResult :=
  fun _ u =>
    if at_url u "https://example.com/a/b"
    then Responds (mkResponse code (Some locationHeader))
    else Responds (mkResponse 200 None).

(** The same with status 200, which [response.ok] accepts. *)
Definition located (locationHeader : string) : Method -> url -> FetchResult :=
  redirecting 200 locationHeader.

(** The HEAD request is rejected; the GET request is answered 404 without
    a [Location] header. *)
Definition head_rejected : Method -> url -> FetchResult :=
  fun method _ =>
    match method with
    | HEAD => Rejects
    | GET => Responds (mkResponse 404 None)
    end.

(** Every URL answers 200 with its own address as [Location]. *)
Definition self_located : Method -> url -> FetchResult :=
  fun _ u => Responds (mkResponse 200 (Some (href u))).

End Scenario.

(** ** Notions for the statements *)

Section Notions.

Context {H : Host}.

(** The requests one probe of [url] issues when started in state [st]: the
    GET request alone for a listed host name; otherwise the HEAD request,
    followed by the GET request when the HEAD request is rejected. *)
Definition probe_requests (url : URL H) (st : State H)
  : list (Method * URL H) :=
  if bool_decide (hostname H url ∈ noHeadRequestDomains H (world st))
  then [(GET, url)]
  else match fst (fetch H HEAD url (world st)) with
       | Responds _ => [(HEAD, url)]
       | Rejects => [(HEAD, url); (GET, url)]
       end.

(** Two states that differ at most in the console output. *)
Definition same_net (s s' : State H) : Prop :=
  world s = world s' /\ requests s = requests s'.

(** The guard of the loop for a chain of the given length. *)
Definition guard (chain : list (URL H)) (maxChainLength : Q) : bool :=
  number_lt (inject_Z (Z.of_nat (length chain))) maxChainLength.

(** The loop as a relation: a call returns the chain [c] in state [st']
    when the rounds lead to a configuration where the guard fails, or where
    the guard holds and the probe returns [null]. *)
Definition ReturnsChain (getLocationHeader : URL H -> Async H (option string))
    (maxChainLength : Q) (start : list (URL H) * URL H * State H)
    (c : list (URL H)) (st' : State H) : Prop :=
  exists chain u s,
    rtc (Round getLocationHeader maxChainLength) start (chain, u, s)
    /\ ((guard chain maxChainLength = false /\ c = chain /\ st' = s)
        \/ (guard chain maxChainLength = true
            /\ getLocationHeader u s = (Normal None, st')
            /\ c = chain ++ [u])).

(** A call returns [null] in state [st'] when the rounds lead to a
    configuration where the guard holds and the probe throws, or returns a
    [Location] value that does not parse; [st'] is the state the [catch]
    block leaves. *)
Definition ReturnsNull (getLocationHeader : URL H -> Async H (option string))
    (on_error : URL H -> Async H unit)
    (maxChainLength : Q) (start : list (URL H) * URL H * State H)
    (st' : State H) : Prop :=
  exists chain u s s1,
    rtc (Round getLocationHeader maxChainLength) start (chain, u, s)
    /\ guard chain maxChainLength = true
    /\ st' = snd (on_error u s1)
    /\ (getLocationHeader u s = (Throws, s1)
        \/ exists locationHeader,
             getLocationHeader u s = (Normal (Some locationHeader), s1)
             /\ resolved locationHeader u = None).

(** The links of a chain, within the run of the loop that starts with the
    empty chain at [url] in state [st]: every
    element [b] that follows an element [a] at position [i] is what a
    [Location] value resolved to, and that value is the one the probe of [a]
    returned in the round the run reached with the first [i] elements
    pushed, in the state the run had then. *)
Definition Linked (getLocationHeader : URL H -> Async H (option string))
    (maxChainLength : Q) (url : URL H) (st : State H)
    (chain : list (URL H)) : Prop :=
  forall (i : nat) (a b : URL H),
    chain !! i = Some a -> chain !! S i = Some b ->
    exists s locationHeader s1,
      rtc (Round getLocationHeader maxChainLength)
          ([], url, st) (take i chain, a, s)
      /\ getLocationHeader a s = (Normal (Some locationHeader), s1)
      /\ resolved locationHeader a = Some b.

End Notions.

(** ** Proof support *)

Ltac unfold_async :=
  unfold TS.getLocationHeader, JS.getLocationHeader, bind, try_catch, ret,
    await_fetch, noHeadRequestDomains_has, console_error in *.

Ltac listed :=
  cbn; unfold noHeadRequestDomains_seed;
  refine (bool_decide_eq_true_1 _ _); vm_compute; reflexivity.
Ltac not_listed :=
  cbn; unfold noHeadRequestDomains_seed;
  refine (bool_decide_eq_false_1 _ _); vm_compute; reflexivity.

Ltac case_fetch method url w :=
  let r := fresh "r" in
  let w' := fresh "w" in
  let E := fresh "E" in
  destruct (fetch _ method url w) as [[r|] w'] eqn:E; cbn [fst snd] in *.

Section ProbeFacts.

Context {H : Host}.

Lemma ts_probe_obtains (url : URL H) (st : State H) (r : Response) :
  Obtains url st r ->
  fst (TS.getLocationHeader url st)
  = Normal (if negb (ok r) then None else location r).
Proof.
  intros [Hout Hhead | Hin Hget | Hout Hhead Hget]; unfold_async; cbn.
  - rewrite bool_decide_false by exact Hout. cbn.
    case_fetch HEAD url (world st); [|discriminate].
    injection Hhead as ->. destruct (ok r); reflexivity.
  - rewrite bool_decide_true by exact Hin. cbn.
    case_fetch GET url (world st); [|discriminate].
    injection Hget as ->. destruct (ok r); reflexivity.
  - rewrite bool_decide_false by exact Hout. cbn.
    case_fetch HEAD url (world st); [discriminate|]. cbn.
    case_fetch GET url w; [|discriminate].
    injection Hget as ->. destruct (ok r); reflexivity.
Qed.

Lemma ts_probe_no_response (url : URL H) (st : State H) :
  NoResponse url st -> fst (TS.getLocationHeader url st) = Normal None.
Proof.
  intros [[Hin Hget] | (Hout & Hhead & Hget)]; unfold_async; cbn.
  - rewrite bool_decide_true by exact Hin. cbn.
    case_fetch GET url (world st); [discriminate|]. reflexivity.
  - rewrite bool_decide_false by exact Hout. cbn.
    case_fetch HEAD url (world st); [discriminate|]. cbn.
    case_fetch GET url w; [discriminate|]. reflexivity.
Qed.

Lemma js_probe_obtains (url : URL H) (st : State H) (r : Response) :
  Obtains url st r ->
  fst (JS.getLocationHeader url st) = Normal (location r).
Proof.
  intros [Hout Hhead | Hin Hget | Hout Hhead Hget]; unfold_async; cbn.
  - rewrite bool_decide_false by exact Hout. cbn.
    case_fetch HEAD url (world st); [|discriminate].
    injection Hhead as ->. reflexivity.
  - rewrite bool_decide_true by exact Hin. cbn.
    case_fetch GET url (world st); [|discriminate].
    injection Hget as ->. reflexivity.
  - rewrite bool_decide_false by exact Hout. cbn.
    case_fetch HEAD url (world st); [discriminate|]. cbn.
    case_fetch GET url w; [|discriminate].
    injection Hget as ->. reflexivity.
Qed.

Lemma js_probe_no_response (url : URL H) (st : State H) :
  NoResponse url st -> fst (JS.getLocationHeader url st) = Throws.
Proof.
  intros [[Hin Hget] | (Hout & Hhead & Hget)]; unfold_async; cbn.
  - rewrite bool_decide_true by exact Hin. cbn.
    case_fetch GET url (world st); [discriminate|]. reflexivity.
  - rewrite bool_decide_false by exact Hout. cbn.
    case_fetch HEAD url (world st); [discriminate|]. cbn.
    case_fetch GET url w; [discriminate|]. reflexivity.
Qed.

(** The TypeScript probe completes normally whatever the world does. *)
Lemma ts_probe_never_throws (url : URL H) (st : State H) :
  exists v, fst (TS.getLocationHeader url st) = Normal v.
Proof.
  unfold_async; cbn.
  destruct (bool_decide _); cbn.
  - case_fetch GET url (world st); [destruct (ok r)|]; eauto.
  - case_fetch HEAD url (world st); cbn.
    + destruct (ok r); eauto.
    + case_fetch GET url w; [destruct (ok r)|]; eauto.
Qed.

End ProbeFacts.

(** ** The loop *)

Lemma number_lt_spec (a b : Q) : number_lt a b = true <-> (a < b)%Q.
Proof.
  unfold number_lt. rewrite negb_true_iff. split.
  - intros Hle. apply Qnot_le_lt. intros Hba.
    apply Qle_bool_iff in Hba. congruence.
  - intros Hlt. destruct (Qle_bool b a) eqn:E; [|reflexivity].
    apply Qle_bool_iff in E. exfalso. exact (Qlt_not_le _ _ Hlt E).
Qed.

Lemma guard_ceiling (n : nat) (m : Q) :
  number_lt (inject_Z (Z.of_nat n)) m = true -> Z.of_nat n < Qceiling m.
Proof.
  intros G. apply number_lt_spec in G. rewrite Zlt_Qlt.
  eapply Qlt_le_trans; [exact G | apply Qle_ceiling].
Qed.

Lemma guard_integer (n : nat) (k : Z) :
  number_lt (inject_Z (Z.of_nat n)) (inject_Z k) = true <-> Z.of_nat n < k.
Proof. rewrite number_lt_spec, <- Zlt_Qlt. reflexivity. Qed.

Lemma guard_empty {A : Type} (m : Q) :
  (0 < m)%Q -> number_lt (inject_Z (Z.of_nat (@length A []))) m = true.
Proof. intros Hm. apply number_lt_spec. exact Hm. Qed.

Lemma iterations_positive (m : Q) :
  (0 < m)%Q -> exists k, iterations m = S k.
Proof.
  intros Hm. unfold iterations.
  assert (0 < Qceiling m) as Hc.
  { rewrite Zlt_Qlt. eapply Qlt_le_trans; [exact Hm | apply Qle_ceiling]. }
  exists (Nat.pred (Z.to_nat (Qceiling m))). lia.
Qed.

Section Loop.

Context {H : Host}.
Variable getLocationHeader : URL H -> Async H (option string).
Variable on_error : URL H -> Async H unit.

Local Abbreviation loop := (walk getLocationHeader on_error).

Lemma walk_exit (fuel : nat) (m : Q) (chain : list (URL H)) (url : URL H)
    (st : State H) :
  number_lt (inject_Z (Z.of_nat (length chain))) m = false ->
  loop fuel m chain url st = Some (Some chain, st).
Proof. intros G. destruct fuel; cbn [walk]; rewrite G; reflexivity. Qed.

Lemma walk_break (fuel : nat) (m : Q) (chain : list (URL H)) (url : URL H)
    (st st1 : State H) :
  number_lt (inject_Z (Z.of_nat (length chain))) m = true ->
  getLocationHeader url st = (Normal None, st1) ->
  loop (S fuel) m chain url st = Some (Some (chain ++ [url]), st1).
Proof. intros G E. cbn [walk]. rewrite G, E. reflexivity. Qed.

Lemma walk_continue (fuel : nat) (m : Q) (chain : list (URL H)) (url : URL H)
    (st st1 : State H) (locationHeader : string) :
  number_lt (inject_Z (Z.of_nat (length chain))) m = true ->
  getLocationHeader url st = (Normal (Some locationHeader), st1) ->
  loop (S fuel) m chain url st
  = match resolved locationHeader url with
    | Some next => loop fuel m (chain ++ [url]) next st1
    | None => Some (None, snd (on_error url st1))
    end.
Proof. intros G E. cbn [walk]. rewrite G, E. reflexivity. Qed.

(** The loop ends within [iterations maxChainLength] rounds. *)
Lemma walk_total (fuel : nat) (m : Q) (chain : list (URL H)) (url : URL H)
    (st : State H) :
  Qceiling m <= Z.of_nat fuel + Z.of_nat (length chain) ->
  exists r, loop fuel m chain url st = Some r.
Proof.
  revert chain url st.
  induction fuel as [|fuel IH]; intros chain url st Hfuel; cbn [walk];
    destruct (number_lt _ m) eqn:G; eauto.
  - apply guard_ceiling in G. lia.
  - apply guard_ceiling in G.
    destruct (getLocationHeader url st) as [[[loc|]|] st1]; eauto.
    destruct (if String.prefix "/" loc then _ else _) as [next|]; eauto.
    apply IH. rewrite length_app. cbn [length]. lia.
Qed.

(** The chain only grows, and never beyond the bound of the guard. *)
Lemma walk_chain (fuel : nat) (m : Q) (chain c : list (URL H)) (url : URL H)
    (st st' : State H) :
  loop fuel m chain url st = Some (Some c, st') ->
  (exists rest, c = chain ++ rest) /\
  Z.of_nat (length c) <= Z.max (Z.of_nat (length chain)) (Qceiling m).
Proof.
  revert chain url st.
  induction fuel as [|fuel IH]; intros chain url st; cbn [walk];
    destruct (number_lt _ m) eqn:G; try discriminate.
  - intros [= <- <-]. split; [exists []; symmetry; apply app_nil_r | lia].
  - apply guard_ceiling in G.
    destruct (getLocationHeader url st) as [[[loc|]|] st1]; try discriminate.
    + destruct (if String.prefix "/" loc then _ else _) as [next|];
        [|discriminate].
      intros Hrec. apply IH in Hrec as [[rest ->] Hlen].
      rewrite !length_app in *. cbn [length] in *.
      split; [exists (url :: rest); rewrite <- app_assoc; reflexivity | lia].
    + intros [= <- <-]. split; [eauto|].
      rewrite length_app. cbn [length]. lia.
  - intros [= <- <-]. split; [exists []; symmetry; apply app_nil_r | lia].
Qed.

(** Once the guard lets a round start, the current URL is in the chain. *)
Lemma walk_pushes (fuel : nat) (m : Q) (chain c : list (URL H)) (url : URL H)
    (st st' : State H) :
  number_lt (inject_Z (Z.of_nat (length chain))) m = true ->
  loop fuel m chain url st = Some (Some c, st') ->
  exists rest, c = chain ++ url :: rest.
Proof.
  intros G. destruct fuel as [|fuel]; cbn [walk]; rewrite G;
    [discriminate|].
  destruct (getLocationHeader url st) as [[[loc|]|] st1]; try discriminate.
  - destruct (if String.prefix "/" loc then _ else _) as [next|];
      [|discriminate].
    intros Hrec. apply walk_chain in Hrec as [[rest ->] _].
    exists rest. rewrite <- app_assoc. reflexivity.
  - intros [= <- <-]. exists []. reflexivity.
Qed.

(** [null] comes out of the loop only through its [catch] block, entered at
    a round the loop reached: the probe threw there, or the [Location] value
    it returned did not parse. *)
Lemma walk_null (fuel : nat) (m : Q) (chain : list (URL H)) (url : URL H)
    (st st' : State H) :
  loop fuel m chain url st = Some (None, st') ->
  exists chain' u s s1,
    rtc (Round getLocationHeader m) (chain, url, st) (chain', u, s)
    /\ st' = snd (on_error u s1)
    /\ (getLocationHeader u s = (Throws, s1)
        \/ exists locationHeader,
             getLocationHeader u s = (Normal (Some locationHeader), s1)
             /\ resolved locationHeader u = None).
Proof.
  revert chain url st st'.
  induction fuel as [|fuel IH]; intros chain url st st'; cbn [walk];
    destruct (number_lt _ m) eqn:G; try discriminate.
  destruct (getLocationHeader url st) as [[[loc|]|] st1] eqn:E;
    try discriminate.
  - destruct (if String.prefix "/" loc then _ else _) as [next|] eqn:R.
    + intros Hrec. apply IH in Hrec as (chain' & u & s & s1 & Hreach & Hrest).
      exists chain', u, s, s1. split; [|exact Hrest].
      eapply rtc_l; [|exact Hreach]. econstructor; eassumption.
    + intros [= <-]. exists chain, url, st, st1.
      split; [apply rtc_refl|]. split; [reflexivity|]. right. eauto.
  - intros [= <-]. exists chain, url, st, st1.
    split; [apply rtc_refl|]. split; [reflexivity|]. left. exact E.
Qed.

(** A URL whose probe always returns a [Location] value that resolves to
    the URL itself fills the chain up to an integer [maxChainLength]. *)
Lemma walk_self (url : URL H) (k : Z) :
  (forall st, exists locationHeader st1,
      getLocationHeader url st = (Normal (Some locationHeader), st1)
      /\ resolved locationHeader url = Some url) ->
  forall (fuel : nat) (chain : list (URL H)) (st : State H),
    Z.of_nat (length chain) <= k ->
    k <= Z.of_nat fuel + Z.of_nat (length chain) ->
    exists st',
      loop fuel (inject_Z k) chain url st
      = Some (Some (chain ++ repeat url (Z.to_nat k - length chain)), st').
Proof.
  intros Hself. induction fuel as [|fuel IH]; intros chain st Hlo Hhi;
    cbn [walk]; destruct (number_lt _ (inject_Z k)) eqn:G.
  - apply guard_integer in G. lia.
  - exists st. replace (Z.to_nat k - length chain)%nat with 0%nat by lia.
    cbn [repeat]. rewrite app_nil_r. reflexivity.
  - apply guard_integer in G.
    destruct (Hself st) as (loc & st1 & -> & R). unfold resolved in R.
    rewrite R.
    destruct (IH (chain ++ [url]) st1) as [st' ->].
    + rewrite length_app. cbn [length]. lia.
    + rewrite length_app. cbn [length]. lia.
    + exists st'. rewrite length_app. cbn [length].
      replace (Z.to_nat k - length chain)%nat
        with (S (Z.to_nat k - (length chain + 1)))%nat by lia.
      cbn [repeat]. rewrite <- app_assoc. reflexivity.
  - exists st.
    assert (~ Z.of_nat (length chain) < k) as Hge.
    { intros Hlt. apply guard_integer in Hlt. congruence. }
    replace (Z.to_nat k - length chain)%nat with 0%nat by lia.
    cbn [repeat]. rewrite app_nil_r. reflexivity.
Qed.

End Loop.

(** ** The probe and the loop together *)

Section Chain.

Context {H : Host}.

Lemma returned_value (r : option (option (list (URL H)) * State H))
    (v : option (list (URL H))) :
  returned r = Some v -> exists st', r = Some (v, st').
Proof.
  destruct r as [[v' st']|]; cbn; [|discriminate].
  intros [= ->]. eauto.
Qed.

(** A probe that comes back with [null] ends the chain at the current URL. *)
Lemma ts_chain_ends (url : URL H) (st : State H) (m : Q) :
  fst (TS.getLocationHeader url st) = Normal None ->
  (forall fuel chain,
      number_lt (inject_Z (Z.of_nat (length chain))) m = true ->
      exists st',
        walk TS.getLocationHeader (fun _ => ret tt) (S fuel) m chain url st
        = Some (Some (chain ++ [url]), st'))
  /\ ((0 < m)%Q ->
      returned (TS.getRedirectChain url m st) = Some (Some [url])).
Proof.
  intros Hp. destruct (TS.getLocationHeader url st) as [v st1] eqn:E.
  cbn in Hp. subst v. split.
  - intros fuel chain G. exists st1. apply walk_break; assumption.
  - intros Hm. destruct (iterations_positive m Hm) as [k Hk].
    unfold TS.getRedirectChain. rewrite Hk.
    erewrite walk_break; [reflexivity | apply guard_empty; exact Hm | exact E].
Qed.

(** Both functions return: the loop never runs out of rounds. *)
Lemma getRedirectChain_total (url : URL H) (m : Q) (st : State H) :
  (exists r, TS.getRedirectChain url m st = Some r)
  /\ (exists r, JS.getRedirectChain url m st = Some r).
Proof.
  split; apply walk_total; unfold iterations; cbn [length]; lia.
Qed.

(** When no request is answered, [src/index.ts] returns the chain [[url]]
    and [index.js] returns [null]. *)
Lemma no_response_chain (url : URL H) (st : State H) (m : Q) :
  NoResponse url st -> (0 < m)%Q ->
  returned (TS.getRedirectChain url m st) = Some (Some [url])
  /\ returned (JS.getRedirectChain url m st) = Some None.
Proof.
  intros Hno Hm. split.
  - apply ts_chain_ends; [|exact Hm]. apply ts_probe_no_response. exact Hno.
  - destruct (iterations_positive m Hm) as [k Hk].
    unfold JS.getRedirectChain. rewrite Hk. cbn [walk].
    rewrite (guard_empty m Hm).
    pose proof (js_probe_no_response url st Hno) as Hp.
    destruct (JS.getLocationHeader url st) as [v st1]. cbn in Hp. subst v.
    reflexivity.
Qed.

(** In [index.js], a URL that every response redirects to itself fills the
    chain: [maxChainLength] elements when that is a non-negative integer. *)
Lemma js_self_redirect_chain (url : URL H) (locationHeader : string) (k : Z)
    (st : State H) :
  (forall s, exists r, Obtains url s r /\ location r = Some locationHeader) ->
  resolved locationHeader url = Some url ->
  0 <= k ->
  returned (JS.getRedirectChain url (inject_Z k) st)
  = Some (Some (repeat url (Z.to_nat k))).
Proof.
  intros Hredirect Hself Hk. unfold JS.getRedirectChain.
  destruct (walk_self JS.getLocationHeader
              (fun u => console_error (ChainRequestError u)) url k) with
    (fuel := iterations (inject_Z k)) (chain := @nil (URL H)) (st := st)
    as [st' ->].
  - intros s. destruct (Hredirect s) as (r & Hobt & Hloc).
    pose proof (js_probe_obtains url s r Hobt) as Hp.
    destruct (JS.getLocationHeader url s) as [v s1]. cbn in Hp. subst v.
    exists locationHeader, s1. rewrite Hloc. auto.
  - cbn [length]. lia.
  - unfold iterations. rewrite Qceiling_Z. cbn [length]. lia.
  - cbn. rewrite Nat.sub_0_r. reflexivity.
Qed.

End Chain.

(** ** The loop as a relation *)

Lemma guard_false_ceiling (n : nat) (m : Q) :
  number_lt (inject_Z (Z.of_nat n)) m = false -> Qceiling m <= Z.of_nat n.
Proof.
  intros G. rewrite <- (Qceiling_Z (Z.of_nat n)). apply Qceiling_resp_le.
  apply Qnot_lt_le. intros Hlt. apply number_lt_spec in Hlt. congruence.
Qed.

Lemma guard_le (n : nat) (m m' : Q) :
  (m <= m')%Q ->
  number_lt (inject_Z (Z.of_nat n)) m = true ->
  number_lt (inject_Z (Z.of_nat n)) m' = true.
Proof.
  intros Hle G. apply number_lt_spec. apply number_lt_spec in G.
  eapply Qlt_le_trans; eassumption.
Qed.

Section LoopRelation.

Context {H : Host}.
Variable getLocationHeader : URL H -> Async H (option string).
Variable on_error : URL H -> Async H unit.

Local Abbreviation loop := (walk getLocationHeader on_error).

(** More rounds than needed change nothing. *)
Lemma walk_fuel_more (fuel fuel' : nat) (m : Q) (chain : list (URL H))
    (url : URL H) (st : State H) r :
  loop fuel m chain url st = Some r -> (fuel <= fuel')%nat ->
  loop fuel' m chain url st = Some r.
Proof.
  revert fuel' chain url st.
  induction fuel as [|fuel IH]; intros fuel' chain url st; cbn [walk].
  - destruct (number_lt _ m) eqn:G; [discriminate|].
    intros Hr _. rewrite walk_exit by exact G. exact Hr.
  - intros Hr Hle. destruct fuel' as [|fuel']; [lia|]. cbn [walk].
    destruct (number_lt _ m); [|exact Hr].
    destruct (getLocationHeader url st) as [[[loc|]|] st1]; try exact Hr.
    destruct (if String.prefix "/" loc then _ else _) as [next|];
      [|exact Hr].
    apply IH; [exact Hr | lia].
Qed.

(** Following the rounds of the relation is running the loop. *)
Lemma walk_reach (m : Q) (c1 c2 : list (URL H) * URL H * State H) :
  rtc (Round getLocationHeader m) c1 c2 ->
  forall fuel,
    Qceiling m <= Z.of_nat fuel + Z.of_nat (length (fst (fst c1))) ->
    exists fuel',
      Qceiling m <= Z.of_nat fuel' + Z.of_nat (length (fst (fst c2)))
      /\ loop fuel m (fst (fst c1)) (snd (fst c1)) (snd c1)
         = loop fuel' m (fst (fst c2)) (snd (fst c2)) (snd c2).
Proof.
  induction 1 as [c | c1 c2 c3 Hstep _ IH]; intros fuel Hfuel.
  - exists fuel. auto.
  - destruct Hstep as [chain url st loc st1 next G E R]. cbn [fst snd] in *.
    pose proof (guard_ceiling _ _ G) as Hlt.
    destruct fuel as [|fuel]; [lia|].
    destruct (IH fuel) as (fuel' & Hfuel' & Hwalk).
    + rewrite length_app. cbn [length]. lia.
    + exists fuel'. split; [exact Hfuel'|].
      rewrite <- Hwalk.
      rewrite (walk_continue getLocationHeader on_error
                 fuel m chain url st st1 loc G E), R.
      reflexivity.
Qed.

Lemma walk_returns_chain (fuel : nat) (m : Q) (chain c : list (URL H))
    (url : URL H) (st st' : State H) :
  loop fuel m chain url st = Some (Some c, st') ->
  ReturnsChain getLocationHeader m (chain, url, st) c st'.
Proof.
  revert chain url st.
  induction fuel as [|fuel IH]; intros chain url st; cbn [walk];
    destruct (number_lt _ m) eqn:G; try discriminate.
  - intros [= <- <-]. exists chain, url, st. split; [apply rtc_refl|].
    left. auto.
  - destruct (getLocationHeader url st) as [[[loc|]|] st1] eqn:E;
      try discriminate.
    + destruct (if String.prefix "/" loc then _ else _) as [next|] eqn:R;
        [|discriminate].
      intros Hrec. apply IH in Hrec as (chain' & u & s & Hreach & Hend).
      exists chain', u, s. split; [|exact Hend].
      eapply rtc_l; [|exact Hreach]. econstructor; eassumption.
    + intros [= <- <-]. exists chain, url, st. split; [apply rtc_refl|].
      right. auto.
  - intros [= <- <-]. exists chain, url, st. split; [apply rtc_refl|].
    left. auto.
Qed.

Lemma walk_returns_null (fuel : nat) (m : Q) (chain : list (URL H))
    (url : URL H) (st st' : State H) :
  loop fuel m chain url st = Some (None, st') ->
  ReturnsNull getLocationHeader on_error m (chain, url, st) st'.
Proof.
  revert chain url st st'.
  induction fuel as [|fuel IH]; intros chain url st st'; cbn [walk];
    destruct (number_lt _ m) eqn:G; try discriminate.
  destruct (getLocationHeader url st) as [[[loc|]|] st1] eqn:E;
    try discriminate.
  - destruct (if String.prefix "/" loc then _ else _) as [next|] eqn:R.
    + intros Hrec.
      apply IH in Hrec as (chain' & u & s & s1 & Hreach & Hrest).
      exists chain', u, s, s1. split; [|exact Hrest].
      eapply rtc_l; [|exact Hreach]. econstructor; eassumption.
    + intros [= <-]. exists chain, url, st, st1.
      split; [apply rtc_refl|]. split; [exact G|].
      split; [reflexivity|]. right. eauto.
  - intros [= <-]. exists chain, url, st, st1.
    split; [apply rtc_refl|]. split; [exact G|].
    split; [reflexivity|]. left. exact E.
Qed.

(** The loop and the relation agree, given rounds enough for the guard. *)
Lemma walk_chain_iff (fuel : nat) (m : Q) (chain c : list (URL H))
    (url : URL H) (st st' : State H) :
  Qceiling m <= Z.of_nat fuel + Z.of_nat (length chain) ->
  loop fuel m chain url st = Some (Some c, st')
  <-> ReturnsChain getLocationHeader m (chain, url, st) c st'.
Proof.
  intros Hfuel. split; [apply walk_returns_chain|].
  intros (chain' & u & s & Hreach & Hend).
  destruct (walk_reach m _ _ Hreach fuel Hfuel) as (fuel' & Hfuel' & Hw).
  cbn [fst snd] in *. rewrite Hw.
  destruct Hend as [(G & -> & ->) | (G & E & ->)].
  - apply walk_exit. exact G.
  - pose proof (guard_ceiling _ _ G) as Hlt.
    destruct fuel' as [|fuel']; [lia|]. apply walk_break; assumption.
Qed.

Lemma walk_null_iff (fuel : nat) (m : Q) (chain : list (URL H))
    (url : URL H) (st st' : State H) :
  Qceiling m <= Z.of_nat fuel + Z.of_nat (length chain) ->
  loop fuel m chain url st = Some (None, st')
  <-> ReturnsNull getLocationHeader on_error m (chain, url, st) st'.
Proof.
  intros Hfuel. split; [apply walk_returns_null|].
  intros (chain' & u & s & s1 & Hreach & G & -> & Hcause).
  destruct (walk_reach m _ _ Hreach fuel Hfuel) as (fuel' & Hfuel' & Hw).
  cbn [fst snd] in *. rewrite Hw.
  pose proof (guard_ceiling _ _ G) as Hlt.
  destruct fuel' as [|fuel']; [lia|].
  unfold guard in G. cbn [walk]. rewrite G.
  destruct Hcause as [-> | (loc & -> & R)]; [reflexivity|].
  unfold resolved in R. rewrite R. reflexivity.
Qed.

End LoopRelation.

Lemma iterations_enough (m : Q) :
  Qceiling m <= Z.of_nat (iterations m) + Z.of_nat (@length nat []).
Proof. unfold iterations. cbn [length]. lia. Qed.

(** ** The two files on the same world *)

Section Related.

Context {H : Host}.

(** On states with the same world, the two probes leave the same world and
    the same requests, and the probe of [src/index.ts] returns what the probe
    of [index.js] returns, or [null]. *)
Lemma probes_related (url : URL H) (st sj : State H) :
  same_net st sj ->
  same_net (snd (TS.getLocationHeader url st))
           (snd (JS.getLocationHeader url sj))
  /\ match fst (JS.getLocationHeader url sj) with
     | Normal (Some locationHeader) =>
         fst (TS.getLocationHeader url st) = Normal (Some locationHeader)
         \/ fst (TS.getLocationHeader url st) = Normal None
     | Normal None | Throws =>
         fst (TS.getLocationHeader url st) = Normal None
     end.
Proof.
  destruct st as [w rq co], sj as [w' rq' co']. intros [Hw Hr].
  cbn in Hw, Hr. subst w' rq'. unfold same_net. unfold_async. cbn.
  destruct (bool_decide _); cbn.
  - case_fetch GET url w; cbn; [|auto].
    destruct (ok r), (location r); cbn; auto.
  - case_fetch HEAD url w; cbn.
    + destruct (ok r), (location r); cbn; auto.
    + case_fetch GET url w0; cbn; [|auto].
      destruct (ok r), (location r); cbn; auto.
Qed.

(** What a probe obtains depends on the world alone. *)
Lemma obtains_same_world (url : URL H) (st sj : State H) (r : Response) :
  world st = world sj -> Obtains url st r -> Obtains url sj r.
Proof.
  intros Hw [Hout Hhead | Hin Hget | Hout Hhead Hget]; rewrite Hw in *.
  - apply obtains_head; assumption.
  - apply obtains_get; assumption.
  - apply obtains_get_after_head; assumption.
Qed.

(** Where the response obtained has a status in 200-299 or no [Location]
    header, the two probes return the same value. *)
Lemma probes_agree_value (url : URL H) (st sj : State H) (r : Response) :
  world st = world sj ->
  Obtains url st r -> ok r = true \/ location r = None ->
  fst (TS.getLocationHeader url st) = fst (JS.getLocationHeader url sj).
Proof.
  intros Hw Hobt Hgood.
  rewrite (ts_probe_obtains url st r Hobt).
  rewrite (js_probe_obtains url sj r (obtains_same_world _ _ _ _ Hw Hobt)).
  destruct Hgood as [-> | ->]; [reflexivity|].
  destruct (ok r); reflexivity.
Qed.

(** The two loops return the same value after the same requests when every
    probe of the run obtains such a response. *)
Lemma walk_agree_run (fuel : nat) (m : Q) (chain : list (URL H))
    (url : URL H) (st sj : State H) :
  same_net st sj ->
  (forall chain' u s,
      rtc (Round TS.getLocationHeader m) (chain, url, st) (chain', u, s) ->
      guard chain' m = true ->
      exists r, Obtains u s r /\ (ok r = true \/ location r = None)) ->
  observable (walk TS.getLocationHeader (fun _ => ret tt)
                fuel m chain url st)
  = observable (walk JS.getLocationHeader
                  (fun u => console_error (ChainRequestError u))
                  fuel m chain url sj).
Proof.
  revert chain url st sj.
  induction fuel as [|fuel IH]; intros chain url st sj Hnet Hrun; cbn [walk];
    destruct (number_lt _ m) eqn:G; try reflexivity.
  - destruct Hnet as [Hw Hr]. cbn. rewrite Hw, Hr. reflexivity.
  - destruct (Hrun chain url st (rtc_refl _ _) G) as (r & Hobt & Hgood).
    pose proof (probes_agree_value url st sj r (proj1 Hnet) Hobt Hgood) as Hv.
    destruct (probes_related url st sj Hnet) as [[Hw1 Hr1] _].
    destruct (TS.getLocationHeader url st) as [vt st1] eqn:Ets.
    destruct (JS.getLocationHeader url sj) as [vj sj1].
    cbn [fst snd] in *. subst vj.
    destruct vt as [[loc|]|].
    + destruct (if String.prefix "/" loc then _ else _) as [next|] eqn:R.
      * apply IH; [split; assumption|].
        intros chain' u s Hreach. apply Hrun.
        eapply rtc_l; [|exact Hreach]. econstructor; eassumption.
      * cbn. rewrite Hw1, Hr1. reflexivity.
    + cbn. rewrite Hw1, Hr1. reflexivity.
    + cbn. rewrite Hw1, Hr1. reflexivity.
  - destruct Hnet as [Hw Hr]. cbn. rewrite Hw, Hr. reflexivity.
Qed.

End Related.

(** ** The links of a run *)

Section LinksOfRun.

Context {H : Host}.
Variable getLocationHeader : URL H -> Async H (option string).

(** Along the rounds, what has been pushed, followed by the current URL,
    is linked. *)
Lemma round_links (m : Q) (url : URL H) (st : State H)
    (c : list (URL H) * URL H * State H) :
  rtc (Round getLocationHeader m) ([], url, st) c ->
  Linked getLocationHeader m url st (fst (fst c) ++ [snd (fst c)]).
Proof.
  intros Hreach. pattern c. revert c Hreach. apply rtc_ind_r.
  - intros i a b _ Hb. cbn in Hb. discriminate.
  - intros c2 c3 Hreach Hstep Hinv.
    destruct Hstep as [chain u s loc s1 next G E R]. cbn [fst snd] in *.
    intros i a b Ha Hb.
    destruct (decide (S i < length (chain ++ [u]))%nat) as [Hlt|Hge].
    + rewrite lookup_app_l in Ha by lia. rewrite lookup_app_l in Hb by lia.
      destruct (Hinv i a b Ha Hb) as (s' & loc' & s1' & Hr' & Hrest).
      exists s', loc', s1'. split; [|exact Hrest].
      rewrite take_app_le by lia. exact Hr'.
    + assert (S i = length (chain ++ [u])) as Hi.
      { apply lookup_lt_Some in Hb. rewrite length_app in Hb.
        cbn [length] in Hb. lia. }
      rewrite length_app in Hi. cbn [length] in Hi.
      assert (i = length chain) as -> by lia.
      rewrite lookup_app_l in Ha by (rewrite length_app; cbn [length]; lia).
      rewrite list_lookup_middle in Ha by reflexivity. injection Ha as <-.
      rewrite lookup_app_r in Hb by (rewrite length_app; cbn [length]; lia).
      rewrite length_app in Hb. cbn [length] in Hb.
      replace (S (length chain) - (length chain + 1))%nat with 0%nat in Hb
        by lia.
      cbn in Hb. injection Hb as <-.
      exists s, loc, s1. split; [|auto].
      rewrite take_app3_length' by reflexivity. exact Hreach.
Qed.

Lemma returns_chain_linked (m : Q) (url : URL H) (st st' : State H)
    (c : list (URL H)) :
  ReturnsChain getLocationHeader m ([], url, st) c st' ->
  Linked getLocationHeader m url st c.
Proof.
  intros (chain & u & s & Hreach & Hend).
  apply round_links in Hreach. cbn [fst snd] in Hreach.
  destruct Hend as [(_ & -> & _) | (_ & _ & ->)]; [|exact Hreach].
  intros i a b Ha Hb.
  pose proof (lookup_lt_Some _ _ _ Hb) as Hlt.
  destruct (Hreach i a b) as (s' & loc & s1 & Hr & Hrest).
  - rewrite lookup_app_l by lia. exact Ha.
  - rewrite lookup_app_l by lia. exact Hb.
  - exists s', loc, s1. split; [|exact Hrest].
    rewrite take_app_le in Hr by lia. exact Hr.
Qed.

End LinksOfRun.

(** ** The claims *)

(** C1, as the code has it: when a probe obtains a response whose status is
    outside 200-299 and that carries no [Location] header,
    [getLocationHeader] returns [null], the loop of [getRedirectChain] breaks,
    and the chain built so far, ending with that URL, is returned: at any
    round of the loop, and for the input URL itself, where the result is
    [[url]] whenever [maxChainLength] is positive. *)
Theorem C1_non_success_ends_chain (H : Host) (url : URL H) (st : State H)
    (r : Response) (maxChainLength : Q) :
  Obtains url st r -> ok r = false -> location r = None ->
  (forall fuel chain,
      number_lt (inject_Z (Z.of_nat (length chain))) maxChainLength = true ->
      exists st',
        walk TS.getLocationHeader (fun _ => ret tt)
             (S fuel) maxChainLength chain url st
        = Some (Some (chain ++ [url]), st'))
  /\ ((0 < maxChainLength)%Q ->
      returned (TS.getRedirectChain url maxChainLength st) = Some (Some [url])).
Proof.
  intros Hobt Hok Hloc. apply ts_chain_ends.
  rewrite (ts_probe_obtains url st r Hobt), Hok. reflexivity.
Qed.

Lemma C1_non_success_ends_chain_witness :
  returned (TS.getRedirectChain (H := Whatwg.static Scenario.not_found)
              Scenario.example_root defaultMaxChainLength
              (Whatwg.start Scenario.not_found))
  = Some (Some [Scenario.example_root]).
Proof.
  refine (proj2 (C1_non_success_ends_chain (Whatwg.static Scenario.not_found)
                   Scenario.example_root (Whatwg.start Scenario.not_found)
                   (mkResponse 404 None) defaultMaxChainLength _ _ _) _).
  - apply obtains_head; [not_listed | reflexivity].
  - reflexivity.
  - reflexivity.
  - reflexivity.
Defined.

(** C1 as stated fails: a 404 without a [Location] header, and the call
    returns the one-element chain, not [null]. *)
Lemma C1_counterexample :
  let H := Whatwg.static Scenario.not_found in
  let st := Whatwg.start Scenario.not_found in
  let r := mkResponse 404 None in
  Obtains (H := H) Scenario.example_root st r
  /\ ok r = false
  /\ location r = None
  /\ returned (TS.getRedirectChain (H := H) Scenario.example_root
                 defaultMaxChainLength st)
     = Some (Some [Scenario.example_root])
  /\ returned (TS.getRedirectChain (H := H) Scenario.example_root
                 defaultMaxChainLength st)
     <> Some None.
Proof.
  cbv zeta. split; [|split; [|split; [|split]]].
  - apply obtains_head; [not_listed | reflexivity].
  - reflexivity.
  - reflexivity.
  - vm_compute. reflexivity.
  - vm_compute. discriminate.
Qed.

(** C2, the code at the failing input: no request for the URL is answered.
    In [src/index.ts] the probe returns [null] and the call returns the chain
    [[url]]; in [index.js] the probe throws and the call returns [null]. *)
Theorem C2_get_rejection_not_propagated :
  let H := Whatwg.static Scenario.unreachable in
  let st := Whatwg.start Scenario.unreachable in
  NoResponse (H := H) Scenario.example_root st
  /\ fst (TS.getLocationHeader (H := H) Scenario.example_root st) = Normal None
  /\ returned (TS.getRedirectChain (H := H) Scenario.example_root
                 defaultMaxChainLength st)
     = Some (Some [Scenario.example_root])
  /\ fst (JS.getLocationHeader (H := H) Scenario.example_root st) = Throws
  /\ returned (JS.getRedirectChain (H := H) Scenario.example_root
                 defaultMaxChainLength st)
     = Some None.
Proof.
  cbv zeta. split; [|split; [|split; [|split]]];
    try (vm_compute; reflexivity).
  right. split; [not_listed|]. split; reflexivity.
Qed.

(** C3, as the code has it: the two files are two implementations.
    [index.js] writes to the console, [src/index.ts] does not.  The console
    aside, [getLocationHeader] returns the same value after the same requests
    in both files whenever the probe obtains a response that has a status in
    200-299 or no [Location] header, and [getRedirectChain] returns the same
    value after the same requests whenever every probe of its run obtains
    such a response. *)
Theorem C3_files_agree_apart_from_console (H : Host) :
  (forall (url : URL H) (st : State H) (r : Response),
      Obtains url st r -> ok r = true \/ location r = None ->
      fst (TS.getLocationHeader url st) = fst (JS.getLocationHeader url st)
      /\ same_net (snd (TS.getLocationHeader url st))
                  (snd (JS.getLocationHeader url st)))
  /\ (forall (url : URL H) (maxChainLength : Q) (st : State H),
         (forall chain u s,
             rtc (Round TS.getLocationHeader maxChainLength)
                 ([], url, st) (chain, u, s) ->
             guard chain maxChainLength = true ->
             exists r, Obtains u s r /\ (ok r = true \/ location r = None)) ->
         observable (TS.getRedirectChain url maxChainLength st)
         = observable (JS.getRedirectChain url maxChainLength st)).
Proof.
  split.
  - intros url st r Hobt Hgood. split.
    + exact (probes_agree_value url st st r eq_refl Hobt Hgood).
    + apply probes_related. split; reflexivity.
  - intros url m st Hrun. unfold TS.getRedirectChain, JS.getRedirectChain.
    apply walk_agree_run; [split; reflexivity | exact Hrun].
Qed.

Lemma C3_files_agree_apart_from_console_witness :
  fst (TS.getLocationHeader (H := Whatwg.static Scenario.head_rejected)
         Scenario.example_root (Whatwg.start Scenario.head_rejected))
  = fst (JS.getLocationHeader (H := Whatwg.static Scenario.head_rejected)
           Scenario.example_root (Whatwg.start Scenario.head_rejected))
  /\ observable (TS.getRedirectChain
                   (H := Whatwg.static Scenario.head_rejected)
                   Scenario.example_root defaultMaxChainLength
                   (Whatwg.start Scenario.head_rejected))
     = observable (JS.getRedirectChain
                     (H := Whatwg.static Scenario.head_rejected)
                     Scenario.example_root defaultMaxChainLength
                     (Whatwg.start Scenario.head_rejected)).
Proof.
  destruct (C3_files_agree_apart_from_console
              (Whatwg.static Scenario.head_rejected)) as [Hprobe Hchain].
  split.
  - apply (Hprobe _ _ (mkResponse 404 None)); [|right; reflexivity].
    apply obtains_get_after_head; [not_listed | reflexivity | reflexivity].
  - apply Hchain. intros chain u s _ _.
    exists (mkResponse 404 None). split; [|right; reflexivity].
    destruct (decide (hostname (Whatwg.static Scenario.head_rejected) u
                      ∈ noHeadRequestDomains
                          (Whatwg.static Scenario.head_rejected) (world s)))
      as [Hin|Hout].
    + apply obtains_get; [exact Hin | reflexivity].
    + apply obtains_get_after_head; [exact Hout | reflexivity | reflexivity].
Defined.

(** C3 as stated fails: when the HEAD request is rejected and the GET
    request answered, both files return the same value after the same
    requests, but [index.js] has written a message to the console and
    [src/index.ts] has not. *)
Lemma C3_counterexample :
  let H := Whatwg.static Scenario.head_rejected in
  let st := Whatwg.start Scenario.head_rejected in
  console (snd (TS.getLocationHeader (H := H) Scenario.example_root st)) = []
  /\ console (snd (JS.getLocationHeader (H := H) Scenario.example_root st))
     = [HeadRequestFailed "example.com"]
  /\ TS.getLocationHeader (H := H) Scenario.example_root st
     <> JS.getLocationHeader (H := H) Scenario.example_root st
  /\ TS.getRedirectChain (H := H) Scenario.example_root
       defaultMaxChainLength st
     <> JS.getRedirectChain (H := H) Scenario.example_root
          defaultMaxChainLength st.
Proof.
  cbv zeta.
  assert (console (snd (TS.getLocationHeader
                          (H := Whatwg.static Scenario.head_rejected)
                          Scenario.example_root
                          (Whatwg.start Scenario.head_rejected))) = [])
    as Hts by reflexivity.
  assert (console (snd (JS.getLocationHeader
                          (H := Whatwg.static Scenario.head_rejected)
                          Scenario.example_root
                          (Whatwg.start Scenario.head_rejected)))
          = [HeadRequestFailed "example.com"])
    as Hjs by reflexivity.
  assert (option_map (fun p => console (snd p))
            (TS.getRedirectChain (H := Whatwg.static Scenario.head_rejected)
               Scenario.example_root defaultMaxChainLength
               (Whatwg.start Scenario.head_rejected)) = Some [])
    as Hcts by reflexivity.
  assert (option_map (fun p => console (snd p))
            (JS.getRedirectChain (H := Whatwg.static Scenario.head_rejected)
               Scenario.example_root defaultMaxChainLength
               (Whatwg.start Scenario.head_rejected))
          = Some [HeadRequestFailed "example.com"])
    as Hcjs by reflexivity.
  split; [exact Hts|]. split; [exact Hjs|]. split.
  - intros Heq. rewrite Heq, Hjs in Hts. discriminate.
  - intros Heq. rewrite Heq, Hcjs in Hcts. discriminate.
Qed.

(** C4, as the code has it: a returned chain has at most as many elements as
    the least non-negative integer that is not below [maxChainLength]; so at
    most [maxChainLength] whenever that is a non-negative integer. *)
Theorem C4_chain_length_bound (H : Host) (url : URL H) (maxChainLength : Q)
    (st : State H) (chain : list (URL H)) :
  returned (TS.getRedirectChain url maxChainLength st) = Some (Some chain) ->
  Z.of_nat (length chain) <= Z.max 0 (Qceiling maxChainLength)
  /\ (forall k : Z,
         0 <= k -> (maxChainLength == inject_Z k)%Q ->
         Z.of_nat (length chain) <= k).
Proof.
  intros Hr. apply returned_value in Hr as [st' Hr].
  unfold TS.getRedirectChain in Hr. apply walk_chain in Hr as [_ Hlen].
  cbn [length] in Hlen. split; [exact Hlen|].
  intros k Hk Hm. rewrite (Qceiling_comp _ _ Hm), Qceiling_Z in Hlen. lia.
Qed.

Lemma C4_chain_length_bound_witness :
  Z.of_nat (length [Scenario.example_root]) <= 20.
Proof.
  refine (proj2 (C4_chain_length_bound (Whatwg.static Scenario.plain)
                   Scenario.example_root 20 (Whatwg.start Scenario.plain)
                   [Scenario.example_root] _) 20 _ _).
  - vm_compute. reflexivity.
  - lia.
  - reflexivity.
Defined.

(** C4 as stated fails: with [maxChainLength] one half the call returns a
    chain of one element. *)
Lemma C4_counterexample :
  returned (TS.getRedirectChain (H := Whatwg.static Scenario.plain)
              Scenario.example_root (1 # 2) (Whatwg.start Scenario.plain))
  = Some (Some [Scenario.example_root])
  /\ ~ (inject_Z (Z.of_nat (length [Scenario.example_root])) <= 1 # 2)%Q.
Proof.
  split.
  - vm_compute. reflexivity.
  - vm_compute. intros Hle. apply Hle. reflexivity.
Qed.

(** C5, the code at the failing input: every request for the URL is
    answered 301 with the URL itself as [Location].  In [src/index.ts] the
    call returns the chain [[url]]; in [index.js] it returns the URL twenty
    times. *)
Theorem C5_self_redirect_stops_after_one :
  let H := Whatwg.static Scenario.self_redirect in
  let st := Whatwg.start Scenario.self_redirect in
  fst (TS.getLocationHeader (H := H) Scenario.example_root st) = Normal None
  /\ returned (TS.getRedirectChain (H := H) Scenario.example_root
                 defaultMaxChainLength st)
     = Some (Some [Scenario.example_root])
  /\ returned (JS.getRedirectChain (H := H) Scenario.example_root
                 defaultMaxChainLength st)
     = Some (Some (repeat Scenario.example_root 20)).
Proof.
  cbv zeta. split; [|split]; vm_compute; reflexivity.
Qed.

(** C6, as the code has it: when [maxChainLength] is positive and the call
    does not return [null], the chain starts with the input URL. *)
Theorem C6_first_element (H : Host) (url : URL H) (maxChainLength : Q)
    (st : State H) (chain : list (URL H)) :
  (0 < maxChainLength)%Q ->
  returned (TS.getRedirectChain url maxChainLength st) = Some (Some chain) ->
  hd_error chain = Some url.
Proof.
  intros Hm Hr. apply returned_value in Hr as [st' Hr].
  unfold TS.getRedirectChain in Hr.
  apply walk_pushes in Hr as [rest ->]; [reflexivity|].
  apply guard_empty. exact Hm.
Qed.

Lemma C6_first_element_witness :
  hd_error [Scenario.example_ab; Scenario.example_c] = Some Scenario.example_ab.
Proof.
  refine (C6_first_element (Whatwg.static (Scenario.located "/c"))
            Scenario.example_ab defaultMaxChainLength
            (Whatwg.start (Scenario.located "/c")) _ _ _).
  - reflexivity.
  - vm_compute. reflexivity.
Defined.

(** C6 as stated fails: with [maxChainLength] zero the call returns the
    empty array, which is not [null] and has no first element. *)
Lemma C6_counterexample :
  returned (TS.getRedirectChain (H := Whatwg.static Scenario.plain)
              Scenario.example_root 0 (Whatwg.start Scenario.plain))
  = Some (Some [])
  /\ hd_error (@nil Whatwg.url) <> Some Scenario.example_root.
Proof.
  split.
  - vm_compute. reflexivity.
  - discriminate.
Qed.

(** C7, as the code has it: in a chain that [getRedirectChain] returns,
    every URL after the first comes from the [Location] value that the probe
    of the URL before it returned in that run: it is
    [new URL(locationHeader, url)], the value resolved against that URL, if
    the value starts with [/], and [new URL(locationHeader)], which does not
    depend on that URL, otherwise.  And when the probe of the input URL
    returns a [Location] value and [maxChainLength] is above 1, a returned
    chain has a second element, which is the URL that value resolves to in
    this way.  Which parts of the URL before it the result keeps is the
    constructor's matter: the statement is for every host. *)
Theorem C7_location_resolution (H : Host) (url : URL H) (maxChainLength : Q)
    (st : State H) (c : list (URL H)) :
  returned (TS.getRedirectChain url maxChainLength st) = Some (Some c) ->
  (forall (i : nat) (current next : URL H),
      c !! i = Some current -> c !! S i = Some next ->
      exists s locationHeader s1,
        rtc (Round TS.getLocationHeader maxChainLength)
            ([], url, st) (take i c, current, s)
        /\ TS.getLocationHeader current s
           = (Normal (Some locationHeader), s1)
        /\ ((String.prefix "/" locationHeader = true
             /\ URL_new H locationHeader (Some current) = Some next)
            \/ (String.prefix "/" locationHeader = false
                /\ URL_new H locationHeader None = Some next)))
  /\ (forall (locationHeader : string) (st1 : State H),
         TS.getLocationHeader url st = (Normal (Some locationHeader), st1) ->
         (1 < maxChainLength)%Q ->
         exists next,
           c !! 1%nat = Some next
           /\ ((String.prefix "/" locationHeader = true
                /\ URL_new H locationHeader (Some url) = Some next)
               \/ (String.prefix "/" locationHeader = false
                   /\ URL_new H locationHeader None = Some next))).
Proof.
  intros Hr. apply returned_value in Hr as [st' Hr].
  unfold TS.getRedirectChain in Hr. split.
  - intros i current next Ha Hb.
    apply walk_returns_chain in Hr. apply returns_chain_linked in Hr.
    destruct (Hr i current next Ha Hb) as (s & loc & s1 & Hreach & E & R).
    exists s, loc, s1. split; [exact Hreach|]. split; [exact E|].
    unfold resolved in R. destruct (String.prefix "/" loc); auto.
  - intros loc st1 E Hm.
    assert (0 < maxChainLength)%Q as Hpos.
    { eapply Qlt_trans; [|exact Hm]. reflexivity. }
    destruct (iterations_positive maxChainLength Hpos) as [k Hk].
    rewrite Hk in Hr.
    rewrite (walk_continue _ _ _ _ _ _ _ _ _
               (guard_empty maxChainLength Hpos) E) in Hr.
    unfold resolved in Hr.
    destruct (if String.prefix "/" loc then _ else _) as [next|] eqn:R;
      [|discriminate].
    apply walk_pushes in Hr as [rest ->];
      [|apply number_lt_spec; exact Hm].
    exists next. split; [reflexivity|].
    destruct (String.prefix "/" loc); auto.
Qed.

Lemma C7_location_resolution_witness :
  exists next,
    [Scenario.example_ab; Scenario.example_c] !! 1%nat = Some next
    /\ ((String.prefix "/" "/c" = true
         /\ Whatwg.URL_new "/c" (Some Scenario.example_ab) = Some next)
        \/ (String.prefix "/" "/c" = false
            /\ Whatwg.URL_new "/c" None = Some next)).
Proof.
  assert (fst (TS.getLocationHeader
                 (H := Whatwg.static (Scenario.located "/c"))
                 Scenario.example_ab (Whatwg.start (Scenario.located "/c")))
          = Normal (Some "/c")) as Hv by (vm_compute; reflexivity).
  destruct (TS.getLocationHeader
              (H := Whatwg.static (Scenario.located "/c"))
              Scenario.example_ab (Whatwg.start (Scenario.located "/c")))
    as [v st1] eqn:E.
  cbn [fst] in Hv. subst v.
  refine (proj2 (C7_location_resolution
                   (Whatwg.static (Scenario.located "/c"))
                   Scenario.example_ab defaultMaxChainLength
                   (Whatwg.start (Scenario.located "/c"))
                   [Scenario.example_ab; Scenario.example_c] _)
            "/c" st1 E _).
  - vm_compute. reflexivity.
  - reflexivity.
Defined.

(** C7 as stated fails: the value [//other.example/x] starts with [/], and
    the next URL has the host named in the value, not the host of the
    current URL. *)
Lemma C7_counterexample :
  let site := Scenario.located "//other.example/x" in
  String.prefix "/" "//other.example/x" = true
  /\ returned (TS.getRedirectChain (H := Whatwg.static site)
                 Scenario.example_ab defaultMaxChainLength (Whatwg.start site))
     = Some (Some [Scenario.example_ab; Scenario.other_x])
  /\ Whatwg.host Scenario.other_x <> Whatwg.host Scenario.example_ab.
Proof.
  cbv zeta. split; [|split].
  - reflexivity.
  - vm_compute. reflexivity.
  - discriminate.
Qed.

(** C8, as the code has it: when the probe of the input URL obtains a
    successful response without a [Location] header and [maxChainLength] is
    positive (as the default, 20, is), the call returns [[url]]. *)
Theorem C8_no_redirect_singleton (H : Host) (url : URL H) (st : State H)
    (r : Response) (maxChainLength : Q) :
  Obtains url st r -> ok r = true -> location r = None ->
  (0 < maxChainLength)%Q ->
  returned (TS.getRedirectChain url maxChainLength st) = Some (Some [url]).
Proof.
  intros Hobt Hok Hloc Hm. apply ts_chain_ends; [|exact Hm].
  rewrite (ts_probe_obtains url st r Hobt), Hok, Hloc. reflexivity.
Qed.

Lemma C8_no_redirect_singleton_witness :
  returned (TS.getRedirectChain (H := Whatwg.static Scenario.plain)
              Scenario.example_root defaultMaxChainLength
              (Whatwg.start Scenario.plain))
  = Some (Some [Scenario.example_root]).
Proof.
  refine (C8_no_redirect_singleton (Whatwg.static Scenario.plain)
            Scenario.example_root (Whatwg.start Scenario.plain)
            (mkResponse 200 None) defaultMaxChainLength _ _ _ _).
  - apply obtains_head; [not_listed | reflexivity].
  - reflexivity.
  - reflexivity.
  - reflexivity.
Defined.

(** C8 as stated fails: the URL does not redirect, and with [maxChainLength]
    zero the call returns the empty array, not [[url]]. *)
Lemma C8_counterexample :
  let H := Whatwg.static Scenario.plain in
  let st := Whatwg.start Scenario.plain in
  let r := mkResponse 200 None in
  Obtains (H := H) Scenario.example_root st r
  /\ ok r = true
  /\ location r = None
  /\ returned (TS.getRedirectChain (H := H) Scenario.example_root 0 st)
     = Some (Some [])
  /\ returned (TS.getRedirectChain (H := H) Scenario.example_root 0 st)
     <> Some (Some [Scenario.example_root]).
Proof.
  cbv zeta. split; [|split; [|split; [|split]]].
  - apply obtains_head; [not_listed | reflexivity].
  - reflexivity.
  - reflexivity.
  - vm_compute. reflexivity.
  - vm_compute. discriminate.
Qed.

(** C9: when the host name of the URL is in [noHeadRequestDomains], the
    probe issues exactly one request, the GET request; no HEAD request is
    issued.  This holds in both files. *)
Theorem C9_no_head_for_listed_domains (H : Host) (url : URL H) (st : State H) :
  hostname H url ∈ noHeadRequestDomains H (world st) ->
  requests (snd (TS.getLocationHeader url st)) = requests st ++ [(GET, url)]
  /\ requests (snd (JS.getLocationHeader url st)) = requests st ++ [(GET, url)].
Proof.
  intros Hin. unfold_async. cbn.
  rewrite bool_decide_true by exact Hin. cbn.
  case_fetch GET url (world st); [destruct (ok r)|]; split; reflexivity.
Qed.

Lemma C9_no_head_for_listed_domains_witness :
  requests (snd (TS.getLocationHeader (H := Whatwg.static Scenario.plain)
                   Scenario.mega_file (Whatwg.start Scenario.plain)))
  = [(GET, Scenario.mega_file)].
Proof.
  refine (proj1 (C9_no_head_for_listed_domains (Whatwg.static Scenario.plain)
                   Scenario.mega_file (Whatwg.start Scenario.plain) _)).
  listed.
Defined.

(** C10: in [src/index.ts], [getLocationHeader] never throws; it returns
    [null] when no request is answered, when the response obtained has a
    status outside 200-299, and when a successful response has no [Location]
    header; and [getRedirectChain] returns [null] only at a round of its loop
    where the probe returned a [Location] value that the URL constructor
    rejected. *)
Theorem C10_ts_probe_never_throws (H : Host) :
  (forall (url : URL H) (st : State H),
      exists v, fst (TS.getLocationHeader url st) = Normal v)
  /\ (forall (url : URL H) (st : State H),
         NoResponse url st ->
         fst (TS.getLocationHeader url st) = Normal None)
  /\ (forall (url : URL H) (st : State H) (r : Response),
         Obtains url st r -> ok r = false ->
         fst (TS.getLocationHeader url st) = Normal None)
  /\ (forall (url : URL H) (st : State H) (r : Response),
         Obtains url st r -> ok r = true -> location r = None ->
         fst (TS.getLocationHeader url st) = Normal None)
  /\ (forall (url : URL H) (maxChainLength : Q) (st : State H),
         returned (TS.getRedirectChain url maxChainLength st) = Some None ->
         exists chain u s locationHeader s1,
           rtc (Round TS.getLocationHeader maxChainLength)
               ([], url, st) (chain, u, s)
           /\ TS.getLocationHeader u s = (Normal (Some locationHeader), s1)
           /\ resolved locationHeader u = None).
Proof.
  split; [exact ts_probe_never_throws|].
  split; [exact ts_probe_no_response|].
  split; [|split].
  - intros url st r Hobt Hok.
    rewrite (ts_probe_obtains url st r Hobt), Hok. reflexivity.
  - intros url st r Hobt Hok Hloc.
    rewrite (ts_probe_obtains url st r Hobt), Hok, Hloc. reflexivity.
  - intros url m st Hr. apply returned_value in Hr as [st' Hr].
    unfold TS.getRedirectChain in Hr.
    apply walk_null in Hr as (chain & u & s & s1 & Hreach & _ & Hcause).
    destruct Hcause as [Hthrow | [loc [Hloc Hparse]]].
    + destruct (ts_probe_never_throws u s) as [v Hv].
      rewrite Hthrow in Hv. discriminate.
    + exists chain, u, s, loc, s1. auto.
Qed.

Lemma C10_ts_probe_never_throws_witness :
  fst (TS.getLocationHeader (H := Whatwg.static Scenario.unreachable)
         Scenario.example_root (Whatwg.start Scenario.unreachable))
  = Normal None
  /\ fst (TS.getLocationHeader (H := Whatwg.static Scenario.not_found)
            Scenario.example_root (Whatwg.start Scenario.not_found))
     = Normal None
  /\ fst (TS.getLocationHeader (H := Whatwg.static Scenario.plain)
            Scenario.example_root (Whatwg.start Scenario.plain))
     = Normal None
  /\ exists chain u s locationHeader s1,
       rtc (Round (H := Whatwg.static (Scenario.located "not a url"))
              TS.getLocationHeader defaultMaxChainLength)
           ([], Scenario.example_ab,
            Whatwg.start (Scenario.located "not a url"))
           (chain, u, s)
       /\ TS.getLocationHeader u s = (Normal (Some locationHeader), s1)
       /\ resolved locationHeader u = None.
Proof.
  split; [|split; [|split]].
  - destruct (C10_ts_probe_never_throws (Whatwg.static Scenario.unreachable))
      as (_ & Hnone & _).
    apply Hnone. right. split; [not_listed|]. split; reflexivity.
  - destruct (C10_ts_probe_never_throws (Whatwg.static Scenario.not_found))
      as (_ & _ & Hstatus & _).
    apply (Hstatus _ _ (mkResponse 404 None)); [|reflexivity].
    apply obtains_head; [not_listed | reflexivity].
  - destruct (C10_ts_probe_never_throws (Whatwg.static Scenario.plain))
      as (_ & _ & _ & Hplain & _).
    apply (Hplain _ _ (mkResponse 200 None)); [|reflexivity|reflexivity].
    apply obtains_head; [not_listed | reflexivity].
  - destruct (C10_ts_probe_never_throws
                (Whatwg.static (Scenario.located "not a url")))
      as (_ & _ & _ & _ & Hnull).
    apply Hnull. vm_compute. reflexivity.
Defined.

(** * Further properties *)

(** ** Further properties of the probe *)

Section ProbeCases.

Context {H : Host}.

(** A probe either obtains a response or gets none. *)
Lemma probe_cases (url : URL H) (st : State H) :
  (exists r, Obtains url st r) \/ NoResponse url st.
Proof.
  destruct (decide (hostname H url ∈ noHeadRequestDomains H (world st)))
    as [Hin|Hout].
  - destruct (fst (fetch H GET url (world st))) as [r|] eqn:E.
    + left. exists r. apply obtains_get; assumption.
    + right. left. auto.
  - destruct (fst (fetch H HEAD url (world st))) as [r|] eqn:E.
    + left. exists r. apply obtains_head; assumption.
    + destruct (fst (fetch H GET url (snd (fetch H HEAD url (world st)))))
        as [r|] eqn:E'.
      * left. exists r. apply obtains_get_after_head; assumption.
      * right. right. auto.
Qed.

Lemma ts_probe_requests (url : URL H) (st : State H) :
  requests (snd (TS.getLocationHeader url st))
  = requests st ++ probe_requests url st.
Proof.
  unfold probe_requests. unfold_async. cbn.
  destruct (bool_decide _); cbn.
  - case_fetch GET url (world st); [destruct (ok r)|]; reflexivity.
  - case_fetch HEAD url (world st); cbn.
    + destruct (ok r); reflexivity.
    + case_fetch GET url w; [destruct (ok r)|]; cbn;
        rewrite <- app_assoc; reflexivity.
Qed.

Lemma js_probe_requests (url : URL H) (st : State H) :
  requests (snd (JS.getLocationHeader url st))
  = requests st ++ probe_requests url st.
Proof.
  unfold probe_requests. unfold_async. cbn.
  destruct (bool_decide _); cbn.
  - case_fetch GET url (world st); reflexivity.
  - case_fetch HEAD url (world st); cbn; [reflexivity|].
    case_fetch GET url w; cbn; rewrite <- app_assoc; reflexivity.
Qed.

Lemma probe_requests_shape (url : URL H) (st : State H) :
  (1 <= length (probe_requests url st) <= 2)%nat
  /\ Forall (fun q => snd q = url) (probe_requests url st).
Proof.
  unfold probe_requests. destruct (bool_decide _).
  - cbn. split; [lia|]. repeat constructor.
  - destruct (fst (fetch H HEAD url (world st))); cbn;
      (split; [lia|]); repeat constructor.
Qed.

End ProbeCases.

(** X1: one probe issues one or two requests, all for the URL it was given,
    and the same ones in both files: the GET request alone when the host name
    is listed in [noHeadRequestDomains]; otherwise the HEAD request, followed
    by the GET request exactly when the HEAD request was rejected. *)
Theorem X1_probe_requests (H : Host) (url : URL H) (st : State H) :
  requests (snd (TS.getLocationHeader url st))
  = requests st ++ probe_requests url st
  /\ requests (snd (JS.getLocationHeader url st))
     = requests st ++ probe_requests url st
  /\ (1 <= length (probe_requests url st) <= 2)%nat
  /\ Forall (fun q => snd q = url) (probe_requests url st).
Proof.
  split; [apply ts_probe_requests|].
  split; [apply js_probe_requests|]. apply probe_requests_shape.
Qed.

(** X2: the probe of [src/index.ts] returns a [Location] value exactly when
    the response it obtained has a status in 200-299 and carries that value;
    in every other case, no response at all included, it returns [null]. *)
Theorem X2_ts_probe_value (H : Host) (url : URL H) (st : State H) :
  (forall locationHeader,
      fst (TS.getLocationHeader url st) = Normal (Some locationHeader)
      <-> exists r, Obtains url st r /\ ok r = true
                    /\ location r = Some locationHeader)
  /\ (fst (TS.getLocationHeader url st) = Normal None
      <-> NoResponse url st
          \/ exists r, Obtains url st r
                       /\ (ok r = false \/ location r = None)).
Proof.
  split.
  - intros loc. split.
    + intros Hv. destruct (probe_cases url st) as [[r Hobt]|Hno].
      * exists r. rewrite (ts_probe_obtains url st r Hobt) in Hv.
        destruct (ok r); cbn in Hv; [|discriminate].
        injection Hv as Hv. auto.
      * rewrite (ts_probe_no_response url st Hno) in Hv. discriminate.
    + intros (r & Hobt & Hok & Hloc).
      rewrite (ts_probe_obtains url st r Hobt), Hok, Hloc. reflexivity.
  - split.
    + intros Hv. destruct (probe_cases url st) as [[r Hobt]|Hno]; [|auto].
      right. exists r. split; [exact Hobt|].
      rewrite (ts_probe_obtains url st r Hobt) in Hv.
      destruct (ok r); cbn in Hv; [|auto]. injection Hv as Hv. auto.
    + intros [Hno | (r & Hobt & Hcase)].
      * apply ts_probe_no_response. exact Hno.
      * rewrite (ts_probe_obtains url st r Hobt).
        destruct Hcase as [-> | Hloc]; [reflexivity|].
        rewrite Hloc. destruct (ok r); reflexivity.
Qed.

Lemma X2_ts_probe_value_witness :
  fst (TS.getLocationHeader (H := Whatwg.static (Scenario.located "/c"))
         Scenario.example_ab (Whatwg.start (Scenario.located "/c")))
  = Normal (Some "/c")
  /\ fst (TS.getLocationHeader
            (H := Whatwg.static (Scenario.redirecting 302 "/c"))
            Scenario.example_ab (Whatwg.start (Scenario.redirecting 302 "/c")))
     = Normal None.
Proof.
  split.
  - apply (proj1 (X2_ts_probe_value (Whatwg.static (Scenario.located "/c"))
                    Scenario.example_ab (Whatwg.start (Scenario.located "/c")))).
    exists (mkResponse 200 (Some "/c")).
    split; [|split; reflexivity].
    apply obtains_head; [not_listed | reflexivity].
  - apply (proj2 (X2_ts_probe_value
                    (Whatwg.static (Scenario.redirecting 302 "/c"))
                    Scenario.example_ab
                    (Whatwg.start (Scenario.redirecting 302 "/c")))).
    right. exists (mkResponse 302 (Some "/c")).
    split; [|left; reflexivity].
    apply obtains_head; [not_listed | reflexivity].
Defined.

(** X3: the probe of [index.js] throws exactly when no request is answered;
    otherwise it returns the [Location] header of the response it obtained,
    whatever the status, or [null] when that response has none. *)
Theorem X3_js_probe_value (H : Host) (url : URL H) (st : State H) :
  (fst (JS.getLocationHeader url st) = Throws <-> NoResponse url st)
  /\ (forall v,
         fst (JS.getLocationHeader url st) = Normal v
         <-> exists r, Obtains url st r /\ location r = v).
Proof.
  split; [|intros v]; split.
  - intros Hv. destruct (probe_cases url st) as [[r Hobt]|Hno]; [|exact Hno].
    rewrite (js_probe_obtains url st r Hobt) in Hv. discriminate.
  - apply js_probe_no_response.
  - intros Hv. destruct (probe_cases url st) as [[r Hobt]|Hno].
    + exists r. rewrite (js_probe_obtains url st r Hobt) in Hv.
      injection Hv as Hv. auto.
    + rewrite (js_probe_no_response url st Hno) in Hv. discriminate.
  - intros (r & Hobt & <-). apply js_probe_obtains. exact Hobt.
Qed.

Lemma X3_js_probe_value_witness :
  fst (JS.getLocationHeader (H := Whatwg.static Scenario.unreachable)
         Scenario.example_root (Whatwg.start Scenario.unreachable))
  = Throws
  /\ fst (JS.getLocationHeader
            (H := Whatwg.static (Scenario.redirecting 302 "/c"))
            Scenario.example_ab (Whatwg.start (Scenario.redirecting 302 "/c")))
     = Normal (Some "/c").
Proof.
  split.
  - apply (proj1 (X3_js_probe_value (Whatwg.static Scenario.unreachable)
                    Scenario.example_root
                    (Whatwg.start Scenario.unreachable))).
    right. split; [not_listed|]. split; reflexivity.
  - apply (proj2 (X3_js_probe_value
                    (Whatwg.static (Scenario.redirecting 302 "/c"))
                    Scenario.example_ab
                    (Whatwg.start (Scenario.redirecting 302 "/c")))).
    exists (mkResponse 302 (Some "/c")). split; [|reflexivity].
    apply obtains_head; [not_listed | reflexivity].
Defined.

(** ** The loop as a relation: the two directions together *)

(** X4: [getRedirectChain] returns a chain exactly as the rounds of its loop
    say: the chain is what has been pushed when the guard
    [chain.length < maxChainLength] first fails, or when a probe returns
    [null], that probe's URL included.  This holds in both files. *)
Theorem X4_chain_by_rounds (H : Host) (url : URL H) (maxChainLength : Q)
    (st st' : State H) (c : list (URL H)) :
  (TS.getRedirectChain url maxChainLength st = Some (Some c, st')
   <-> ReturnsChain TS.getLocationHeader maxChainLength ([], url, st) c st')
  /\ (JS.getRedirectChain url maxChainLength st = Some (Some c, st')
      <-> ReturnsChain JS.getLocationHeader maxChainLength ([], url, st) c st').
Proof.
  split; apply walk_chain_iff; unfold iterations; cbn [length]; lia.
Qed.

Lemma X4_chain_by_rounds_witness :
  exists st',
    ReturnsChain (H := Whatwg.static (Scenario.located "/c"))
      TS.getLocationHeader defaultMaxChainLength
      ([], Scenario.example_ab, Whatwg.start (Scenario.located "/c"))
      [Scenario.example_ab; Scenario.example_c] st'.
Proof.
  destruct (returned_value
              (TS.getRedirectChain (H := Whatwg.static (Scenario.located "/c"))
                 Scenario.example_ab defaultMaxChainLength
                 (Whatwg.start (Scenario.located "/c")))
              (Some [Scenario.example_ab; Scenario.example_c]))
    as [st' Hr]; [vm_compute; reflexivity|].
  exists st'.
  apply (proj1 (X4_chain_by_rounds (Whatwg.static (Scenario.located "/c"))
                  Scenario.example_ab defaultMaxChainLength
                  (Whatwg.start (Scenario.located "/c")) st' _)).
  exact Hr.
Defined.

(** X5: [getRedirectChain] returns [null] exactly when its loop reaches a
    round whose probe throws or returns a [Location] value that the URL
    constructor rejects; in [src/index.ts], whose probe never throws, only
    the second case occurs.  In [index.js] the state left behind has the
    message for that round's URL at the end of the console. *)
Theorem X5_null_by_rounds (H : Host) (url : URL H) (maxChainLength : Q)
    (st st' : State H) :
  (TS.getRedirectChain url maxChainLength st = Some (None, st')
   <-> exists chain u locationHeader s,
         rtc (Round TS.getLocationHeader maxChainLength)
             ([], url, st) (chain, u, s)
         /\ guard chain maxChainLength = true
         /\ TS.getLocationHeader u s = (Normal (Some locationHeader), st')
         /\ resolved locationHeader u = None)
  /\ (JS.getRedirectChain url maxChainLength st = Some (None, st')
      <-> ReturnsNull JS.getLocationHeader
            (fun u => console_error (ChainRequestError u))
            maxChainLength ([], url, st) st').
Proof.
  split.
  - unfold TS.getRedirectChain.
    rewrite walk_null_iff by (unfold iterations; cbn [length]; lia).
    split.
    + intros (chain & u & s & s1 & Hreach & G & -> & Hcause).
      destruct Hcause as [Hthrow | (loc & E & R)].
      * destruct (ts_probe_never_throws u s) as [v Hv].
        rewrite Hthrow in Hv. discriminate.
      * exists chain, u, loc, s. auto.
    + intros (chain & u & loc & s & Hreach & G & E & R).
      exists chain, u, s, st'. split; [exact Hreach|].
      split; [exact G|]. split; [reflexivity|]. right. eauto.
  - apply walk_null_iff. unfold iterations. cbn [length]. lia.
Qed.

Lemma X5_null_by_rounds_witness :
  exists st' chain u locationHeader s,
    rtc (Round (H := Whatwg.static (Scenario.located "not a url"))
           TS.getLocationHeader defaultMaxChainLength)
        ([], Scenario.example_ab,
         Whatwg.start (Scenario.located "not a url"))
        (chain, u, s)
    /\ guard chain defaultMaxChainLength = true
    /\ TS.getLocationHeader u s = (Normal (Some locationHeader), st')
    /\ resolved locationHeader u = None.
Proof.
  destruct (returned_value
              (TS.getRedirectChain
                 (H := Whatwg.static (Scenario.located "not a url"))
                 Scenario.example_ab defaultMaxChainLength
                 (Whatwg.start (Scenario.located "not a url")))
              None)
    as [st' Hr]; [vm_compute; reflexivity|].
  exists st'.
  apply (proj1 (X5_null_by_rounds
                  (Whatwg.static (Scenario.located "not a url"))
                  Scenario.example_ab defaultMaxChainLength
                  (Whatwg.start (Scenario.located "not a url")) st')).
  exact Hr.
Defined.

(** ** Links of the chain *)

(** X6: in a chain that [getRedirectChain] returns, every element but the
    first is the URL that a [Location] value resolved to, and that value is
    the one the probe of the element before it returned in this run: in the
    round the loop reached with exactly the elements before it pushed, in
    the state the run had then.  This holds in both files. *)
Theorem X6_chain_linked (H : Host) (url : URL H) (maxChainLength : Q)
    (st : State H) (c : list (URL H)) :
  (returned (TS.getRedirectChain url maxChainLength st) = Some (Some c) ->
   Linked TS.getLocationHeader maxChainLength url st c)
  /\ (returned (JS.getRedirectChain url maxChainLength st) = Some (Some c) ->
      Linked JS.getLocationHeader maxChainLength url st c).
Proof.
  split; intros Hr; apply returned_value in Hr as [st' Hr];
    apply walk_returns_chain in Hr;
    eapply returns_chain_linked; exact Hr.
Qed.

Lemma X6_chain_linked_witness :
  Linked (H := Whatwg.static (Scenario.redirecting 302 "/c"))
    JS.getLocationHeader defaultMaxChainLength
    Scenario.example_ab (Whatwg.start (Scenario.redirecting 302 "/c"))
    [Scenario.example_ab; Scenario.example_c].
Proof.
  apply (proj2 (X6_chain_linked
                  (Whatwg.static (Scenario.redirecting 302 "/c"))
                  Scenario.example_ab defaultMaxChainLength
                  (Whatwg.start (Scenario.redirecting 302 "/c")) _)).
  vm_compute. reflexivity.
Defined.

(** ** Requests of a call *)

Section Budget.

Context {H : Host}.
Variable getLocationHeader : URL H -> Async H (option string).
Variable on_error : URL H -> Async H unit.

Hypothesis probe_requests_spec : forall url st,
  requests (snd (getLocationHeader url st))
  = requests st ++ probe_requests url st.
Hypothesis on_error_requests : forall url st,
  requests (snd (on_error url st)) = requests st.

Local Abbreviation loop := (walk getLocationHeader on_error).


End Budget.



(** ** Changing [maxChainLength] *)

Section Truncate.

Context {H : Host}.
Variable getLocationHeader : URL H -> Async H (option string).
Variable on_error : URL H -> Async H unit.

Local Abbreviation loop := (walk getLocationHeader on_error).

Lemma walk_truncate (fuel : nat) (m m' : Q) (chain c' : list (URL H))
    (url : URL H) (st st' : State H) :
  (m <= m')%Q -> (length chain <= iterations m)%nat ->
  loop fuel m' chain url st = Some (Some c', st') ->
  exists s, loop fuel m chain url st = Some (Some (take (iterations m) c'), s).
Proof.
  intros Hle. revert chain url st.
  induction fuel as [|fuel IH]; intros chain url st Hlen Hr;
    destruct (number_lt (inject_Z (Z.of_nat (length chain))) m) eqn:G.
  - cbn [walk] in Hr. rewrite (guard_le _ _ _ Hle G) in Hr. discriminate.
  - exists st. rewrite walk_exit by exact G.
    apply walk_chain in Hr as [[rest ->] _].
    apply guard_false_ceiling in G.
    rewrite take_app_length'; [reflexivity | unfold iterations in *; lia].
  - pose proof (guard_ceiling _ _ G) as Hlt.
    cbn [walk] in *. rewrite G. rewrite (guard_le _ _ _ Hle G) in Hr.
    destruct (getLocationHeader url st) as [[[loc|]|] st1];
      try discriminate.
    + destruct (if String.prefix "/" loc then _ else _) as [next|];
        [|discriminate].
      apply IH; [|exact Hr].
      rewrite length_app. cbn [length]. unfold iterations. lia.
    + injection Hr as <- <-. exists st1.
      rewrite take_ge; [reflexivity|].
      rewrite length_app. cbn [length]. unfold iterations. lia.
  - exists st. rewrite walk_exit by exact G.
    apply walk_chain in Hr as [[rest ->] _].
    apply guard_false_ceiling in G.
    rewrite take_app_length'; [reflexivity | unfold iterations in *; lia].
Qed.

Lemma walk_null_more (fuel : nat) (m m' : Q) (chain : list (URL H))
    (url : URL H) (st st' : State H) :
  (m <= m')%Q ->
  loop fuel m chain url st = Some (None, st') ->
  loop fuel m' chain url st = Some (None, st').
Proof.
  intros Hle. revert chain url st.
  induction fuel as [|fuel IH]; intros chain url st; cbn [walk];
    destruct (number_lt _ m) eqn:G; try discriminate.
  rewrite (guard_le _ _ _ Hle G).
  destruct (getLocationHeader url st) as [[[loc|]|] st1]; try discriminate;
    [|auto].
  destruct (if String.prefix "/" loc then _ else _) as [next|]; [|auto].
  apply IH.
Qed.

Lemma iterations_le (m m' : Q) :
  (m <= m')%Q -> (iterations m <= iterations m')%nat.
Proof.
  intros Hle. apply Qceiling_resp_le in Hle. unfold iterations. lia.
Qed.

(** Lowering the maximum truncates the chain; raising it keeps a [null]. *)
Lemma walk_maximum (m m' : Q) (url : URL H) (st : State H) :
  (m <= m')%Q ->
  (forall c',
      returned (loop (iterations m') m' [] url st) = Some (Some c') ->
      returned (loop (iterations m) m [] url st)
      = Some (Some (take (iterations m) c')))
  /\ (returned (loop (iterations m) m [] url st) = Some None ->
      returned (loop (iterations m') m' [] url st) = Some None).
Proof.
  intros Hle. pose proof (iterations_le m m' Hle) as Hfuel. split.
  - intros c' Hr. apply returned_value in Hr as [st' Hr].
    destruct (walk_truncate _ m m' [] _ _ _ _ Hle (Nat.le_0_l _) Hr) as [s Hs].
    destruct (walk_total getLocationHeader on_error
                (iterations m) m [] url st) as [r Hrun].
    { unfold iterations. cbn [length]. lia. }
    rewrite (walk_fuel_more _ _ _ _ _ _ _ _ _ Hrun Hfuel) in Hs.
    rewrite Hrun. injection Hs as ->. reflexivity.
  - intros Hr. apply returned_value in Hr as [st' Hr].
    apply (walk_fuel_more _ _ _ (iterations m')) in Hr; [|exact Hfuel].
    rewrite (walk_null_more _ m m' _ _ _ _ Hle Hr). reflexivity.
Qed.

End Truncate.

(** X8: [maxChainLength] only cuts the chain short.  With a smaller maximum
    the call returns the first elements of the chain it returns with a larger
    one, as many as the least non-negative integer not below the smaller
    maximum; and a call that returns [null] still returns [null] with a larger
    maximum.  Both runs start in the same state; this holds in both files. *)
Theorem X8_maximum_truncates (H : Host) (url : URL H) (st : State H)
    (m m' : Q) :
  (m <= m')%Q ->
  (forall c',
      returned (TS.getRedirectChain url m' st) = Some (Some c') ->
      returned (TS.getRedirectChain url m st)
      = Some (Some (take (iterations m) c')))
  /\ (returned (TS.getRedirectChain url m st) = Some None ->
      returned (TS.getRedirectChain url m' st) = Some None)
  /\ (forall c',
         returned (JS.getRedirectChain url m' st) = Some (Some c') ->
         returned (JS.getRedirectChain url m st)
         = Some (Some (take (iterations m) c')))
  /\ (returned (JS.getRedirectChain url m st) = Some None ->
      returned (JS.getRedirectChain url m' st) = Some None).
Proof.
  intros Hle.
  destruct (walk_maximum TS.getLocationHeader (fun _ => ret tt)
              m m' url st Hle) as [Hts1 Hts2].
  destruct (walk_maximum JS.getLocationHeader
              (fun u => console_error (ChainRequestError u))
              m m' url st Hle) as [Hjs1 Hjs2].
  auto.
Qed.

Lemma X8_maximum_truncates_witness :
  returned (JS.getRedirectChain (H := Whatwg.static Scenario.self_redirect)
              Scenario.example_root 3 (Whatwg.start Scenario.self_redirect))
  = Some (Some (take (iterations 3) (repeat Scenario.example_root 20))).
Proof.
  refine (proj1 (proj2 (proj2
            (X8_maximum_truncates (Whatwg.static Scenario.self_redirect)
               Scenario.example_root (Whatwg.start Scenario.self_redirect)
               3 defaultMaxChainLength _))) _ _).
  - vm_compute. discriminate.
  - vm_compute. reflexivity.
Defined.

(** ** The chain of one file within the chain of the other *)

Section Refinement.

Context {H : Host}.

Lemma walk_refines (fuel : nat) (m : Q) (chain cj : list (URL H))
    (url : URL H) (st sj sj' : State H) :
  same_net st sj ->
  walk JS.getLocationHeader (fun u => console_error (ChainRequestError u))
       fuel m chain url sj = Some (Some cj, sj') ->
  exists ct st',
    walk TS.getLocationHeader (fun _ => ret tt) fuel m chain url st
    = Some (Some ct, st')
    /\ ct `prefix_of` cj.
Proof.
  revert chain url st sj.
  induction fuel as [|fuel IH]; intros chain url st sj Hnet; cbn [walk];
    destruct (number_lt _ m) eqn:G; try discriminate.
  - intros [= <- <-]. exists chain, st. split; [reflexivity|]. reflexivity.
  - destruct (probes_related url st sj Hnet) as [Hnet1 Hval].
    destruct (JS.getLocationHeader url sj) as [[[loc|]|] sj1];
      destruct (TS.getLocationHeader url st) as [vt st1];
      cbn [fst snd] in *; try discriminate.
    + destruct (if String.prefix "/" loc then _ else _) as [next|] eqn:R;
        [|discriminate].
      intros Hrec. destruct Hval as [-> | ->].
      * rewrite R. eapply IH; eassumption.
      * apply walk_chain in Hrec as [[rest ->] _].
        exists (chain ++ [url]), st1. split; [reflexivity|].
        exists rest. reflexivity.
    + intros [= <- <-]. subst vt.
      exists (chain ++ [url]), st1. split; reflexivity.
  - intros [= <- <-]. exists chain, st. split; reflexivity.
Qed.

End Refinement.

(** X9: started in the same state, whenever [getRedirectChain] of [index.js]
    returns a chain, [getRedirectChain] of [src/index.ts] returns a chain too,
    and it is an initial part of the other; so whenever [src/index.ts]
    returns [null], [index.js] returns [null] as well. *)
Theorem X9_ts_chain_is_prefix (H : Host) (url : URL H) (maxChainLength : Q)
    (st : State H) :
  (forall cj,
      returned (JS.getRedirectChain url maxChainLength st) = Some (Some cj) ->
      exists ct,
        returned (TS.getRedirectChain url maxChainLength st) = Some (Some ct)
        /\ ct `prefix_of` cj)
  /\ (returned (TS.getRedirectChain url maxChainLength st) = Some None ->
      returned (JS.getRedirectChain url maxChainLength st) = Some None).
Proof.
  assert (forall cj,
      returned (JS.getRedirectChain url maxChainLength st) = Some (Some cj) ->
      exists ct,
        returned (TS.getRedirectChain url maxChainLength st) = Some (Some ct)
        /\ ct `prefix_of` cj) as Hchain.
  { intros cj Hr. apply returned_value in Hr as [sj' Hr].
    unfold JS.getRedirectChain in Hr.
    eapply (walk_refines _ _ _ _ _ st) in Hr as (ct & st' & Hts & Hpre);
      [|split; reflexivity].
    exists ct. unfold TS.getRedirectChain. rewrite Hts. auto. }
  split; [exact Hchain|].
  intros Hts. destruct (getRedirectChain_total url maxChainLength st)
    as [_ [[[cj|] sj'] Hjs]].
  - destruct (Hchain cj) as (ct & Hct & _); [rewrite Hjs; reflexivity|].
    rewrite Hts in Hct. discriminate.
  - rewrite Hjs. reflexivity.
Qed.

Lemma X9_ts_chain_is_prefix_witness :
  exists ct,
    returned (TS.getRedirectChain
                (H := Whatwg.static (Scenario.redirecting 302 "/c"))
                Scenario.example_ab defaultMaxChainLength
                (Whatwg.start (Scenario.redirecting 302 "/c")))
    = Some (Some ct)
    /\ ct `prefix_of` [Scenario.example_ab; Scenario.example_c].
Proof.
  apply (proj1 (X9_ts_chain_is_prefix
                  (Whatwg.static (Scenario.redirecting 302 "/c"))
                  Scenario.example_ab defaultMaxChainLength
                  (Whatwg.start (Scenario.redirecting 302 "/c")))).
  vm_compute. reflexivity.
Defined.

(** ** A URL that redirects to itself *)

(** X10: a URL whose every probe obtains a response with a status in 200-299
    and a [Location] value that resolves to the URL itself fills the chain:
    for a non-negative integer [maxChainLength], both files return that many
    copies of the URL. *)
Theorem X10_self_redirect_fills_chain (H : Host) (url : URL H)
    (locationHeader : string) (k : Z) (st : State H) :
  (forall s, exists r,
      Obtains url s r /\ ok r = true /\ location r = Some locationHeader) ->
  resolved locationHeader url = Some url ->
  0 <= k ->
  returned (TS.getRedirectChain url (inject_Z k) st)
  = Some (Some (repeat url (Z.to_nat k)))
  /\ returned (JS.getRedirectChain url (inject_Z k) st)
     = Some (Some (repeat url (Z.to_nat k))).
Proof.
  intros Hredirect Hself Hk. split.
  - unfold TS.getRedirectChain.
    destruct (walk_self TS.getLocationHeader (fun _ => ret tt) url k) with
      (fuel := iterations (inject_Z k)) (chain := @nil (URL H)) (st := st)
      as [st' ->].
    + intros s. destruct (Hredirect s) as (r & Hobt & Hok & Hloc).
      pose proof (ts_probe_obtains url s r Hobt) as Hp.
      rewrite Hok, Hloc in Hp.
      destruct (TS.getLocationHeader url s) as [v s1]. cbn in Hp. subst v.
      exists locationHeader, s1. auto.
    + cbn [length]. lia.
    + unfold iterations. rewrite Qceiling_Z. cbn [length]. lia.
    + cbn. rewrite Nat.sub_0_r. reflexivity.
  - apply (js_self_redirect_chain url locationHeader); [|assumption..].
    intros s. destruct (Hredirect s) as (r & Hobt & _ & Hloc). eauto.
Qed.

Lemma X10_self_redirect_fills_chain_witness :
  returned (TS.getRedirectChain (H := Whatwg.static Scenario.self_located)
              Scenario.example_root (inject_Z 3)
              (Whatwg.start Scenario.self_located))
  = Some (Some (repeat Scenario.example_root (Z.to_nat 3))).
Proof.
  refine (proj1 (X10_self_redirect_fills_chain
                   (Whatwg.static Scenario.self_located)
                   Scenario.example_root "https://example.com/" 3
                   (Whatwg.start Scenario.self_located) _ _ _)).
  - intros s. exists (mkResponse 200 (Some "https://example.com/")).
    split; [|split; reflexivity].
    destruct (decide (hostname (Whatwg.static Scenario.self_located)
                        Scenario.example_root
                      ∈ noHeadRequestDomains
                          (Whatwg.static Scenario.self_located) (world s)))
      as [Hin|Hout].
    + apply obtains_get; [exact Hin | reflexivity].
    + apply obtains_head; [exact Hout | reflexivity].
  - reflexivity.
  - lia.
Defined.

(** ** A [Location] value that is not a valid URL *)

(** X11: when the probe of the input URL obtains a response with a status in
    200-299 whose [Location] value does not start with [/] and is not a valid
    URL in the sense of [isValidURL], [getRedirectChain] returns [null] for
    every positive [maxChainLength], in both files. *)
Theorem X11_invalid_location_null (H : Host) (url : URL H) (st : State H)
    (r : Response) (locationHeader : string) (maxChainLength : Q) :
  Obtains url st r -> ok r = true -> location r = Some locationHeader ->
  String.prefix "/" locationHeader = false ->
  isValidURL H locationHeader = false ->
  (0 < maxChainLength)%Q ->
  returned (TS.getRedirectChain url maxChainLength st) = Some None
  /\ returned (JS.getRedirectChain url maxChainLength st) = Some None.
Proof.
  intros Hobt Hok Hloc Hslash Hvalid Hm.
  assert (URL_new H locationHeader None = None) as Hparse.
  { unfold isValidURL in Hvalid.
    destruct (URL_new H locationHeader None); [discriminate | reflexivity]. }
  destruct (iterations_positive maxChainLength Hm) as [k Hk].
  pose proof (guard_empty (A := URL H) maxChainLength Hm) as G.
  split.
  - pose proof (ts_probe_obtains url st r Hobt) as Hp.
    rewrite Hok, Hloc in Hp. unfold TS.getRedirectChain. rewrite Hk.
    destruct (TS.getLocationHeader url st) as [v st1] eqn:E.
    cbn in Hp. subst v.
    rewrite (walk_continue _ _ _ _ _ _ _ _ _ G E).
    unfold resolved. rewrite Hslash, Hparse. reflexivity.
  - pose proof (js_probe_obtains url st r Hobt) as Hp.
    rewrite Hloc in Hp. unfold JS.getRedirectChain. rewrite Hk.
    destruct (JS.getLocationHeader url st) as [v st1] eqn:E.
    cbn in Hp. subst v.
    rewrite (walk_continue _ _ _ _ _ _ _ _ _ G E).
    unfold resolved. rewrite Hslash, Hparse. reflexivity.
Qed.

Lemma X11_invalid_location_null_witness :
  returned (TS.getRedirectChain
              (H := Whatwg.static (Scenario.located "not a url"))
              Scenario.example_ab defaultMaxChainLength
              (Whatwg.start (Scenario.located "not a url")))
  = Some None.
Proof.
  refine (proj1 (X11_invalid_location_null
                   (Whatwg.static (Scenario.located "not a url"))
                   Scenario.example_ab
                   (Whatwg.start (Scenario.located "not a url"))
                   (mkResponse 200 (Some "not a url")) "not a url"
                   defaultMaxChainLength _ _ _ _ _ _)).
  - apply obtains_head; [not_listed | reflexivity].
  - reflexivity.
  - reflexivity.
  - reflexivity.
  - reflexivity.
  - reflexivity.
Defined.

(** ** The console *)

Section Console.

Context {H : Host}.
Variable getLocationHeader : URL H -> Async H (option string).

Hypothesis probe_console : forall url st,
  console (snd (getLocationHeader url st)) = console st.

Lemma walk_console (fuel : nat) (m : Q) (chain : list (URL H))
    (url : URL H) (st st' : State H) (v : option (list (URL H))) :
  walk getLocationHeader (fun _ => ret tt) fuel m chain url st
  = Some (v, st') ->
  console st' = console st.
Proof.
  revert chain url st.
  induction fuel as [|fuel IH]; intros chain url st; cbn [walk];
    destruct (number_lt _ m); try discriminate;
    try (intros [= <- <-]; reflexivity).
  pose proof (probe_console url st) as Hc.
  destruct (getLocationHeader url st) as [[[loc|]|] st1]; cbn [snd] in Hc;
    try (intros [= <- <-]; exact Hc).
  destruct (if String.prefix "/" loc then _ else _) as [next|];
    [|intros [= <- <-]; exact Hc].
  intros Hrec. apply IH in Hrec. congruence.
Qed.

End Console.

Lemma ts_probe_console (H : Host) (url : URL H) (st : State H) :
  console (snd (TS.getLocationHeader url st)) = console st.
Proof.
  unfold_async. cbn. destruct (bool_decide _); cbn.
  - case_fetch GET url (world st); [destruct (ok r)|]; reflexivity.
  - case_fetch HEAD url (world st); cbn; [destruct (ok r); reflexivity|].
    case_fetch GET url w; [destruct (ok r)|]; reflexivity.
Qed.

(** X12: [src/index.ts] writes nothing to the console, in a probe or in a
    whole call.  A probe of [index.js] writes one message, naming the host,
    exactly when it issued a HEAD request and that request was rejected; and
    a call of [getRedirectChain] of [index.js] that returns [null] leaves the
    message of its [catch] block as the last one on the console. *)
Theorem X12_console (H : Host) (url : URL H) (maxChainLength : Q)
    (st : State H) :
  console (snd (TS.getLocationHeader url st)) = console st
  /\ console (snd (JS.getLocationHeader url st))
     = console st
       ++ (if bool_decide (hostname H url ∈ noHeadRequestDomains H (world st))
           then []
           else match fst (fetch H HEAD url (world st)) with
                | Responds _ => []
                | Rejects => [HeadRequestFailed (hostname H url)]
                end)
  /\ (forall v st',
         TS.getRedirectChain url maxChainLength st = Some (v, st') ->
         console st' = console st)
  /\ (forall st',
         JS.getRedirectChain url maxChainLength st = Some (None, st') ->
         exists before u, console st' = before ++ [ChainRequestError u]).
Proof.
  split; [apply ts_probe_console|]. split; [|split].
  - unfold_async. cbn. destruct (bool_decide _); cbn.
    + case_fetch GET url (world st); cbn; rewrite app_nil_r; reflexivity.
    + case_fetch HEAD url (world st); cbn; [rewrite app_nil_r; reflexivity|].
      case_fetch GET url w; reflexivity.
  - intros v st' Hr.
    exact (walk_console TS.getLocationHeader (ts_probe_console H)
             _ _ _ _ _ _ _ Hr).
  - intros st' Hr. apply walk_returns_null in Hr
      as (chain & u & s & s1 & _ & _ & -> & _).
    exists (console s1), u. reflexivity.
Qed.

Lemma X12_console_witness :
  exists (st' : State (Whatwg.static Scenario.unreachable)) before u,
    console st' = before ++ [ChainRequestError u].
Proof.
  destruct (returned_value
              (JS.getRedirectChain (H := Whatwg.static Scenario.unreachable)
                 Scenario.example_root defaultMaxChainLength
                 (Whatwg.start Scenario.unreachable))
              None)
    as [st' Hr]; [vm_compute; reflexivity|].
  exists st'.
  apply (proj2 (proj2 (proj2
           (X12_console (Whatwg.static Scenario.unreachable)
              Scenario.example_root defaultMaxChainLength
              (Whatwg.start Scenario.unreachable))))).
  exact Hr.
Defined.

(** ** [index.js]: the shape of the chain *)

(** X13: in [index.js] too, a returned chain has at most as many elements as
    the least non-negative integer not below [maxChainLength]; it starts with
    the input URL when [maxChainLength] is positive; and it is [[url]] when
    the probe of the input URL obtains a response without a [Location]
    header, whatever the status. *)
Theorem X13_js_chain_shape (H : Host) (url : URL H) (maxChainLength : Q)
    (st : State H) :
  (forall c,
      returned (JS.getRedirectChain url maxChainLength st) = Some (Some c) ->
      Z.of_nat (length c) <= Z.max 0 (Qceiling maxChainLength)
      /\ ((0 < maxChainLength)%Q -> hd_error c = Some url))
  /\ (forall r,
         Obtains url st r -> location r = None -> (0 < maxChainLength)%Q ->
         returned (JS.getRedirectChain url maxChainLength st)
         = Some (Some [url])).
Proof.
  split.
  - intros c Hr. apply returned_value in Hr as [st' Hr].
    unfold JS.getRedirectChain in Hr. split.
    + apply walk_chain in Hr as [_ Hlen]. exact Hlen.
    + intros Hm. apply walk_pushes in Hr as [rest ->]; [reflexivity|].
      apply guard_empty. exact Hm.
  - intros r Hobt Hloc Hm.
    destruct (iterations_positive maxChainLength Hm) as [k Hk].
    pose proof (js_probe_obtains url st r Hobt) as Hp. rewrite Hloc in Hp.
    unfold JS.getRedirectChain. rewrite Hk.
    destruct (JS.getLocationHeader url st) as [v st1] eqn:E.
    cbn in Hp. subst v.
    erewrite walk_break; [reflexivity | apply guard_empty; exact Hm | exact E].
Qed.

Lemma X13_js_chain_shape_witness :
  returned (JS.getRedirectChain (H := Whatwg.static Scenario.not_found)
              Scenario.example_root defaultMaxChainLength
              (Whatwg.start Scenario.not_found))
  = Some (Some [Scenario.example_root])
  /\ Z.of_nat (length [Scenario.example_root])
     <= Z.max 0 (Qceiling defaultMaxChainLength).
Proof.
  split.
  - apply (proj2 (X13_js_chain_shape (Whatwg.static Scenario.not_found)
                    Scenario.example_root defaultMaxChainLength
                    (Whatwg.start Scenario.not_found))
             (mkResponse 404 None)).
    + apply obtains_head; [not_listed | reflexivity].
    + reflexivity.
    + reflexivity.
  - apply (proj1 (X13_js_chain_shape (Whatwg.static Scenario.not_found)
                    Scenario.example_root defaultMaxChainLength
                    (Whatwg.start Scenario.not_found))).
    vm_compute. reflexivity.
Defined.
